(** * mongoose-go: a shallow embedding of the collection wrapper

    The Go package [mongoose] (files [config.go] and [mon.go]) is a thin layer
    over the MongoDB Go driver.  The package's own functions are translated
    here one by one; the driver, which is not part of the package, is an
    interface ([Driver]) whose calls are recorded in a trace, so that what the
    package asks of the driver can be stated and proved.

    Conventions of the embedding
    - a Go [string] is a [string] (a list of bytes);
    - a byte is a [Z] in [0, 256);
    - [bson.M] (a Go map) is a [gmap string Value], [bson.D] (a slice of
      key/value elements) is a [list (string * Value)];
    - a nil pointer is [None], a Go [error] that may be nil is [option error];
    - an out parameter [p *T] is the value stored behind [p]: it is given to
      the function and the function returns the value stored there afterwards;
    - package-level variables, the database server, the standard streams and
      the trace of driver calls are the fields of one [World], threaded
      through every function ([Comp]);
    - a Go function ends by returning, by panicking, or by ending the process
      ([log.Fatal]): the three cases of [Outcome]. *)

From stdpp Require Import gmap strings list.
From Stdlib Require Import ZArith String Ascii Lia.

Set Warnings "-register-all".
Local Open Scope string_scope.
Local Open Scope Z_scope.

(** ** Errors *)

(** Go [error] values.  [errorString] is what [errors.New] builds,
    [wrapError] what [fmt.Errorf] with [%w] builds (an error that chains
    another), [InvalidByteError] is the error type of [encoding/hex].
    Pointer identity of error values is not modelled. *)
Inductive error : Type :=
| errorString (msg : string)
| wrapError (msg : string) (err : error)
| InvalidByteError (b : ascii).

Definition errors_New (msg : string) : error := errorString msg.

(** [fmt.Sprintf("%#U", rune(b))] for a byte [b]: [U+] and four upper-case
    hexadecimal digits, then, when the character is printable
    ([strconv.IsPrint]), the character itself in quotes, in UTF-8. *)
Definition upper_hex_digit (n : N) : ascii :=
  nth (N.to_nat n) (list_ascii_of_string "0123456789ABCDEF") "0"%char.

Definition is_print (n : N) : bool :=
  ((32 <=? n) && (n <=? 126) || (161 <=? n) && (n <=? 255) && negb (n =? 173))%N.

Definition utf8_of_byte (n : N) : string :=
  if (n <? 128)%N then String (ascii_of_N n) EmptyString
  else String (ascii_of_N (192 + n / 64))
         (String (ascii_of_N (128 + n mod 64)) EmptyString).

Definition format_sharp_U (b : ascii) : string :=
  let n := N_of_ascii b in
  String.append "U+00"
    (String (upper_hex_digit (n / 16))
       (String (upper_hex_digit (n mod 16))
          (if is_print n
           then String.append " '" (String.append (utf8_of_byte n) "'")
           else EmptyString))).

(** [err.Error()] *)
Fixpoint Error (e : error) : string :=
  match e with
  | errorString msg => msg
  | wrapError msg err => String.append msg (String.append ": " (Error err))
  | InvalidByteError b =>
      String.append "encoding/hex: invalid byte: " (format_sharp_U b)
  end.

(** [errors.Unwrap] *)
Definition Unwrap (e : error) : option error :=
  match e with
  | wrapError _ err => Some err
  | _ => None
  end.

(** [chains e d]: [d] is reachable from [e] through [Unwrap], in one step or
    more. *)
Fixpoint chains (e d : error) : Prop :=
  match e with
  | wrapError _ err => err = d \/ chains err d
  | _ => False
  end.

(** ** Object identifiers *)

(** [primitive.ObjectID] is [[12]byte]. *)
Definition ObjectID : Type := list Z.

Definition NilObjectID : ObjectID := replicate 12 0.

Definition byte_of_ascii (c : ascii) : Z := Z.of_N (N_of_ascii c).

(** [encoding/hex.fromHexChar] *)
Definition fromHexChar (c : ascii) : option Z :=
  let n := byte_of_ascii c in
  if (48 <=? n) && (n <=? 57) then Some (n - 48)
  else if (97 <=? n) && (n <=? 102) then Some (n - 97 + 10)
  else if (65 <=? n) && (n <=? 70) then Some (n - 65 + 10)
  else None.

Definition ErrLength : error := errors_New "encoding/hex: odd length hex string".

Definition ErrInvalidHex : error :=
  errors_New "the provided hex string is not a valid ObjectID".

(** [encoding/hex.DecodeString]: two characters make one byte; the first
    character that is no hex digit, or else an odd length, is the error.  The
    bytes decoded before the error are returned with it. *)
Fixpoint hex_DecodeString (src : string) : list Z * option error :=
  match src with
  | EmptyString => ([], None)
  | String p EmptyString =>
      match fromHexChar p with
      | None => ([], Some (InvalidByteError p))
      | Some _ => ([], Some ErrLength)
      end
  | String p (String q rest) =>
      match fromHexChar p with
      | None => ([], Some (InvalidByteError p))
      | Some a =>
          match fromHexChar q with
          | None => ([], Some (InvalidByteError q))
          | Some b =>
              let '(bs, err) := hex_DecodeString rest in
              (Z.lor (Z.shiftl a 4) b :: bs, err)
          end
      end
  end.

(** [primitive.ObjectIDFromHex] of the driver ([bson/primitive/objectid.go]):
    a string whose length is not 24 gives [ErrInvalidHex]; otherwise the
    string is decoded with [encoding/hex], an error of the decoder is returned
    with [NilObjectID], and the 12 decoded bytes are the identifier. *)
Definition ObjectIDFromHex (s : string) : ObjectID * option error :=
  if negb (Z.of_nat (String.length s) =? 24) then (NilObjectID, Some ErrInvalidHex)
  else
    match hex_DecodeString s with
    | (_, Some err) => (NilObjectID, Some err)
    | (b, None) => (b, None)
    end.

(** [ObjId] ([mon.go]): the error of the parse is dropped. *)
Definition ObjId (s : string) : ObjectID :=
  let '(o, _) := ObjectIDFromHex s in o.

(** What the specification calls a valid identifier string: 24 characters,
    each one a hexadecimal digit.  Written without reference to the parser. *)
Definition is_hex_digit (c : ascii) : bool :=
  match c with
  | "0" | "1" | "2" | "3" | "4" | "5" | "6" | "7" | "8" | "9"
  | "a" | "b" | "c" | "d" | "e" | "f"
  | "A" | "B" | "C" | "D" | "E" | "F" => true
  | _ => false
  end%char.

Fixpoint all_hex (s : string) : bool :=
  match s with
  | EmptyString => true
  | String c rest => is_hex_digit c && all_hex rest
  end.

Definition valid_hex_id (s : string) : bool :=
  (String.length s =? 24)%nat && all_hex s.

(** [encoding/hex]: the table of digits, and [EncodeToString], which writes
    each byte as its high and its low digit. *)
Definition hextable (v : Z) : ascii :=
  nth (Z.to_nat v) (list_ascii_of_string "0123456789abcdef") "0"%char.

Fixpoint hex_EncodeToString (src : list Z) : string :=
  match src with
  | [] => EmptyString
  | v :: rest =>
      String (hextable (Z.shiftr v 4))
        (String (hextable (Z.land v 15)) (hex_EncodeToString rest))
  end.

(** [primitive.ObjectID.Hex] of the driver: the 24 digits of the 12 bytes. *)
Definition ObjectID_Hex (id : ObjectID) : string := hex_EncodeToString id.

(** An upper-case ASCII letter as its lower-case letter, and a string with
    every character so mapped. *)
Definition ascii_lower (c : ascii) : ascii :=
  let n := N_of_ascii c in
  if ((65 <=? n) && (n <=? 90))%N then ascii_of_N (n + 32) else c.

Fixpoint string_lower (s : string) : string :=
  match s with
  | EmptyString => EmptyString
  | String c rest => String (ascii_lower c) (string_lower rest)
  end.

(** The string of [n] characters ["0"]. *)
Fixpoint zeros (n : nat) : string :=
  match n with
  | O => EmptyString
  | S n' => String "0" (zeros n')
  end.


(** ** BSON values *)

(** What the package puts in an [interface{}] that goes to the driver. *)
Inductive Value : Type :=
| VNull
| VBool (b : bool)
| VInt (z : Z)
| VString (s : string)
| VObjectID (o : ObjectID)
| VD (d : list (string * Value))
| VM (m : gmap string Value)
| VA (l : list Value).

(** [bson.M], [bson.D] and [mongo.Pipeline]. *)
Abbreviation bsonM := (gmap string Value).
Abbreviation bsonD := (list (string * Value)).
Abbreviation Pipeline := (list (list (string * Value))).

(** ** Contexts, handles and options *)

(** [time.Duration] counts nanoseconds. *)
Definition Second : Z := 1000000000.

(** A context made by [context.WithTimeout(context.Background(), d)]: which
    one it is, and its time limit. *)
Record Context : Type := { ctx_id : nat; ctx_timeout : Z }.

(** [mongo.Collection]: the handle [client.Database(db).Collection(name)]. *)
Record Collection (Client : Type) : Type :=
  { coll_client : Client; coll_database : string; coll_name : string }.
Arguments coll_client {Client} _.
Arguments coll_database {Client} _.
Arguments coll_name {Client} _.
Arguments Build_Collection {Client} _ _ _.

(** [options.ReturnDocument] *)
Inductive ReturnDocument : Type := Before | After.

(** [options.FindOneAndUpdateOptions], the fields that matter here; a nil
    pointer field is [None]. *)
Record FindOneAndUpdateOptions : Type :=
  { fou_ReturnDocument : option ReturnDocument; fou_Upsert : option bool }.

(** [options.IndexOptions] *)
Record IndexOptions : Type :=
  { Unique : option bool;
    Sparse : option bool;
    Name : option string;
    ExpireAfterSeconds : option Z;
    PartialFilterExpression : option Value }.

(** [options.Index()] *)
Definition options_Index : IndexOptions :=
  {| Unique := None; Sparse := None; Name := None;
     ExpireAfterSeconds := None; PartialFilterExpression := None |}.

Definition SetUnique (unique : bool) (o : IndexOptions) : IndexOptions :=
  {| Unique := Some unique; Sparse := Sparse o; Name := Name o;
     ExpireAfterSeconds := ExpireAfterSeconds o;
     PartialFilterExpression := PartialFilterExpression o |}.

Definition SetSparse (sparse : bool) (o : IndexOptions) : IndexOptions :=
  {| Unique := Unique o; Sparse := Some sparse; Name := Name o;
     ExpireAfterSeconds := ExpireAfterSeconds o;
     PartialFilterExpression := PartialFilterExpression o |}.

(** [mongo.IndexModel] *)
Record IndexModel : Type := { Keys : Value; Options : IndexOptions }.

(** [Populate] ([mon.go]) *)
Record Populate : Type :=
  { LocalField : string; ForeignModel : string; As : string }.

(** The collection names the package exports. *)
Definition Users := "users".
Definition Payments := "payments".
Definition QuizTemplates := "quiz_templates".
Definition QuizEntries := "quiz_entries".
Definition Campaigns := "campaigns".
Definition CampaignParticipations := "campaign_participations".
Definition Rewards := "rewards".

(** How a Go function ends. *)
Inductive Outcome (A : Type) : Type :=
| Ret (a : A)
| Panic (msg : string)
| Exit (code : Z).
Arguments Ret {A} a.
Arguments Panic {A} msg.
Arguments Exit {A} code.

(** The run-time panic of a method call through a nil pointer. *)
Definition nil_dereference : string :=
  "runtime error: invalid memory address or nil pointer dereference".

(** ** The driver, the world and the package's functions *)

Section Model.

(** The driver's own types: the database server behind it, [*mongo.Client],
    [*mongo.SingleResult] and [*mongo.Cursor]; and [M], the document shape a
    [CollectionWrapper[M]] is instantiated at. *)
Context {Server Client SingleResult Cursor M : Type}.

(** The driver functions the package calls.  A call that talks to the server
    is a function of the server's state.  [drv_Decode] and [drv_All] get the
    value behind the out pointer and return the value stored there after the
    call, with the error.  [drv_NewClient] returns a client or an error.  The
    driver is assumed not to panic. *)
Record Driver : Type := {
  drv_NewClient : string -> Client + error;
  drv_Connect : Client -> Context -> Server -> option error * Server;
  drv_Ping : Client -> Context -> Server -> option error * Server;
  drv_FindOne :
    Collection Client -> Context -> bsonM -> Server -> SingleResult * Server;
  drv_FindOneAndUpdate :
    Collection Client -> Context -> bsonM -> bsonM ->
    list FindOneAndUpdateOptions -> Server -> SingleResult * Server;
  drv_Decode : SingleResult -> M -> M * option error;
  drv_InsertOne :
    Collection Client -> Context -> M -> Server ->
    (option Value * option error) * Server;
  drv_Find :
    Collection Client -> Context -> Value -> Server ->
    (Cursor + error) * Server;
  drv_Aggregate :
    Collection Client -> Context -> Pipeline -> Server ->
    (Cursor + error) * Server;
  drv_All :
    Cursor -> Context -> list M -> Server ->
    (list M * option error) * Server;
  drv_CreateOne :
    Collection Client -> Context -> IndexModel -> Server ->
    (string * option error) * Server
}.

(** A call of the driver with a context, as the package made it. *)
Inductive Call : Type :=
| CConnect (client : Client) (ctx : Context)
| CPing (client : Client) (ctx : Context)
| CFindOne (coll : Collection Client) (ctx : Context) (filter : bsonM)
| CFindOneAndUpdate (coll : Collection Client) (ctx : Context)
    (filter update : bsonM) (opts : list FindOneAndUpdateOptions)
| CInsertOne (coll : Collection Client) (ctx : Context) (document : M)
| CFind (coll : Collection Client) (ctx : Context) (filter : Value)
| CAggregate (coll : Collection Client) (ctx : Context) (pipeline : Pipeline)
| CAll (cursor : Cursor) (ctx : Context)
| CCreateOne (coll : Collection Client) (ctx : Context) (model : IndexModel).

Definition call_ctx (c : Call) : Context :=
  match c with
  | CConnect _ ctx | CPing _ ctx | CFindOne _ ctx _
  | CFindOneAndUpdate _ ctx _ _ _ | CInsertOne _ ctx _ | CFind _ ctx _
  | CAggregate _ ctx _ | CAll _ ctx | CCreateOne _ ctx _ => ctx
  end.

Inductive Event : Type :=
| EvWithTimeout (ctx : Context)
| EvCancel (ctx : Context)
| EvCall (c : Call).

(** The package variables [DB] and [DatabaseName] ([config.go]), the server,
    the counter that names contexts, the trace, and the lines written to the
    standard output and to the standard error. *)
Record World : Type := {
  DB : option Client;
  DatabaseName : string;
  server : Server;
  next_ctx : nat;
  trace : list Event;
  stdout : list string;
  stderr : list string
}.

Definition set_DB (c : option Client) (w : World) : World :=
  {| DB := c; DatabaseName := DatabaseName w; server := server w;
     next_ctx := next_ctx w; trace := trace w; stdout := stdout w;
     stderr := stderr w |}.

Definition set_DatabaseName (n : string) (w : World) : World :=
  {| DB := DB w; DatabaseName := n; server := server w;
     next_ctx := next_ctx w; trace := trace w; stdout := stdout w;
     stderr := stderr w |}.

Definition set_server (s : Server) (w : World) : World :=
  {| DB := DB w; DatabaseName := DatabaseName w; server := s;
     next_ctx := next_ctx w; trace := trace w; stdout := stdout w;
     stderr := stderr w |}.

Definition set_next_ctx (n : nat) (w : World) : World :=
  {| DB := DB w; DatabaseName := DatabaseName w; server := server w;
     next_ctx := n; trace := trace w; stdout := stdout w;
     stderr := stderr w |}.

Definition emit (e : Event) (w : World) : World :=
  {| DB := DB w; DatabaseName := DatabaseName w; server := server w;
     next_ctx := next_ctx w; trace := trace w ++ [e]; stdout := stdout w;
     stderr := stderr w |}.

Definition write_stdout (line : string) (w : World) : World :=
  {| DB := DB w; DatabaseName := DatabaseName w; server := server w;
     next_ctx := next_ctx w; trace := trace w; stdout := stdout w ++ [line];
     stderr := stderr w |}.

Definition write_stderr (line : string) (w : World) : World :=
  {| DB := DB w; DatabaseName := DatabaseName w; server := server w;
     next_ctx := next_ctx w; trace := trace w; stdout := stdout w;
     stderr := stderr w ++ [line] |}.

(** A Go function of the package: from a world to how it ends and the world
    it leaves. *)
Definition Comp (A : Type) : Type := World -> Outcome A * World.

Definition ret {A} (a : A) : Comp A := fun w => (Ret a, w).

Definition bind {A B} (c : Comp A) (k : A -> Comp B) : Comp B :=
  fun w =>
    match c w with
    | (Ret a, w') => k a w'
    | (Panic msg, w') => (Panic msg, w')
    | (Exit code, w') => (Exit code, w')
    end.

(** [defer d(); body]: [d] runs when [body] returns and when it panics, not
    when the process ends; a panic of [d] replaces the outcome. *)
Definition defer {A} (d : Comp unit) (body : Comp A) : Comp A :=
  fun w =>
    match body w with
    | (Exit code, w') => (Exit code, w')
    | (o, w') =>
        match d w' with
        | (Ret _, w'') => (o, w'')
        | (Panic msg, w'') => (Panic msg, w'')
        | (Exit code, w'') => (Exit code, w'')
        end
    end.

End Model.

Arguments Driver : clear implicits.
Arguments Call : clear implicits.
Arguments Event : clear implicits.
Arguments World : clear implicits.
Arguments Comp : clear implicits.

Declare Scope comp_scope.
Delimit Scope comp_scope with comp.
Notation "x <- c ;; k" := (bind c (fun x => k))
  (at level 100, c at next level, right associativity) : comp_scope.
Notation "c ;; k" := (bind c (fun _ => k))
  (at level 100, right associativity) : comp_scope.

Section Package.

Context {Server Client SingleResult Cursor M : Type}.
Variable drv : Driver Server Client SingleResult Cursor M.

Local Abbreviation World' := (World Server Client Cursor M).
Local Abbreviation Comp' := (Comp Server Client Cursor M).
Local Open Scope comp_scope.

(** A driver call that talks to the server: it is recorded, and the server
    moves to its next state. *)
Definition call {R} (c : Call Client Cursor M) (f : Server -> R * Server) :
  Comp' R :=
  fun w => let '(r, s') := f (server w) in (Ret r, set_server s' (emit (EvCall c) w)).

(** [cancel()] of a context. *)
Definition cancel_ctx (ctx : Context) : Comp' unit :=
  fun w => (Ret tt, emit (EvCancel ctx) w).

(** [context.WithTimeout(context.Background(), d)] *)
Definition context_WithTimeout (d : Z) : Comp' (Context * Comp' unit) :=
  fun w =>
    let ctx := {| ctx_id := next_ctx w; ctx_timeout := d |} in
    (Ret (ctx, cancel_ctx ctx),
     set_next_ctx (S (next_ctx w)) (emit (EvWithTimeout ctx) w)).

(** [fmt.Println(s)] *)
Definition fmt_Println (s : string) : Comp' unit :=
  fun w => (Ret tt, write_stdout s w).

(** [log.Println(s)]; the time stamp of the line is left out. *)
Definition log_Println (s : string) : Comp' unit :=
  fun w => (Ret tt, write_stderr s w).

(** [log.Fatal(s)]: the line is written and the process ends with status 1. *)
Definition log_Fatal {A} (s : string) : Comp' A :=
  fun w => (Exit 1, write_stderr s w).

(** *** [config.go] *)

Definition ConnectDB (uri databaseName : string) : Comp' Client :=
  let r := drv_NewClient drv uri in
  (fun w => (Ret tt, set_DatabaseName databaseName w)) ;;
  match r with
  | inr err =>
      log_Fatal (String.append "Could not initialize client: " (Error err))
  | inl client =>
      p <- context_WithTimeout (10 * Second) ;;
      let '(ctx, cancel) := p in
      defer cancel (
        err <- call (CConnect client ctx) (drv_Connect drv client ctx) ;;
        match err with
        | Some e =>
            log_Fatal (String.append "Could not connect to client: " (Error e))
        | None =>
            err <- call (CPing client ctx) (drv_Ping drv client ctx) ;;
            match err with
            | Some e =>
                log_Fatal (String.append "Could not ping the database: " (Error e))
            | None =>
                fmt_Println "Connected to MongoDB" ;;
                (fun w => (Ret tt, set_DB (Some client) w)) ;;
                ret client
            end
        end)
  end.

(** [DB.Database(DatabaseName).Collection(collectionName)]: through a nil
    [DB] the call panics. *)
Definition DB_Database_Collection (collectionName : string) :
  Comp' (Collection Client) :=
  fun w =>
    match DB w with
    | None => (Panic nil_dereference, w)
    | Some client =>
        (Ret (Build_Collection client (DatabaseName w) collectionName), w)
    end.

Definition GetCollection (collectionName : string) : Comp' (Collection Client) :=
  collection <- DB_Database_Collection collectionName ;;
  ret collection.

Definition CreateIndex (collectionName field : string) (unique sparse : bool) :
  Comp' bool :=
  let mod_ := {| Keys := VM {[ field := VInt 1 ]};
                Options := SetSparse sparse (SetUnique unique options_Index) |} in
  p <- context_WithTimeout (5 * Second) ;;
  let '(ctx, cancel) := p in
  defer cancel (
    collection <- DB_Database_Collection collectionName ;;
    r <- call (CCreateOne collection ctx mod_)
              (drv_CreateOne drv collection ctx mod_) ;;
    let '(_, err) := r in
    match err with
    | Some e => fmt_Println (Error e) ;; ret false
    | None => ret true
    end).

(** *** [mon.go] *)

Definition GetContext : Comp' (Context * Comp' unit) :=
  p <- context_WithTimeout (10 * Second) ;;
  let '(ctx, cancel) := p in
  ret (ctx, cancel).

(** [CollectionWrapper[A]]: the fields [I] and [name].  The record stands for
    a wrapper whose [I] is a handle resolved on a client, as
    [NewCollectionWrapper] builds it.  The zero value [CollectionWrapper[A]{}],
    whose collection has no client behind it and on which the driver's
    methods panic, is not a value of this type. *)
Record CollectionWrapper : Type :=
  { wrapper_I : Collection Client; wrapper_name : string }.

Definition NewCollectionWrapper (name : string) : Comp' CollectionWrapper :=
  coll <- GetCollection name ;;
  ret {| wrapper_I := coll; wrapper_name := name |}.

Definition FindOne (c : CollectionWrapper) (query : bsonM) (model : M) :
  Comp' (M * option error) :=
  p <- GetContext ;;
  let '(ctx, cancel) := p in
  defer cancel (
    sr <- call (CFindOne (wrapper_I c) ctx query)
               (drv_FindOne drv (wrapper_I c) ctx query) ;;
    let '(model', err) := drv_Decode drv sr model in
    match err with
    | Some _ => ret (model', Some (errors_New "Cannot find document"))
    | None => ret (model', None)
    end).

Definition FindOneById (c : CollectionWrapper) (id : string) (model : M) :
  Comp' (M * option error) :=
  FindOne c {[ "_id" := VObjectID (ObjId id) ]} model.

Definition FindOneAndUpdate (c : CollectionWrapper) (find update : bsonM)
  (updated : M) : Comp' (M * option error) :=
  p <- GetContext ;;
  let '(ctx, cancel) := p in
  defer cancel (
    sr <- call (CFindOneAndUpdate (wrapper_I c) ctx find update [])
               (drv_FindOneAndUpdate drv (wrapper_I c) ctx find update []) ;;
    let '(updated', err) := drv_Decode drv sr updated in
    match err with
    | Some e =>
        fmt_Println (Error e) ;;
        ret (updated', Some (errors_New "Cannot update document"))
    | None => ret (updated', None)
    end).

Definition FindByIdAndUpdate (c : CollectionWrapper) (idHex : string)
  (update : bsonM) (updated : M) : Comp' (M * option error) :=
  FindOneAndUpdate c {[ "_id" := VObjectID (ObjId idHex) ]} update updated.

Definition New (c : CollectionWrapper) (document : M) : Comp' (option error) :=
  p <- GetContext ;;
  let '(ctx, cancel) := p in
  defer cancel (
    r <- call (CInsertOne (wrapper_I c) ctx document)
              (drv_InsertOne drv (wrapper_I c) ctx document) ;;
    let '(_, err) := r in
    ret err).

Definition FindMany (c : CollectionWrapper) (bson : Value) (elem : list M) :
  Comp' (list M * option error) :=
  p <- GetContext ;;
  let '(ctx, cancel) := p in
  defer cancel (
    r <- call (CFind (wrapper_I c) ctx bson) (drv_Find drv (wrapper_I c) ctx bson) ;;
    match r with
    | inr e => ret (elem, Some e)
    | inl cursor =>
        r <- call (CAll cursor ctx) (drv_All drv cursor ctx elem) ;;
        let '(elem', err) := r in
        match err with
        | Some e => ret (elem', Some e)
        | None => ret (elem', None)
        end
    end).

Definition FindManyPopulate (c : CollectionWrapper) (matchQuery : bsonD)
  (populate : Populate) (elem : list M) : Comp' (list M * option error) :=
  p <- GetContext ;;
  let '(ctx, cancel) := p in
  defer cancel (
    let match_ : bsonD := [("$match", VD matchQuery)] in
    let lookup : bsonD :=
      [("$lookup", VD [("from", VString (ForeignModel populate));
                       ("localField", VString (LocalField populate));
                       ("foreignField", VString "_id");
                       ("as", VString (As populate))])] in
    r <- call (CAggregate (wrapper_I c) ctx [match_; lookup])
              (drv_Aggregate drv (wrapper_I c) ctx [match_; lookup]) ;;
    match r with
    | inr e => ret (elem, Some e)
    | inl cursor =>
        r <- call (CAll cursor ctx) (drv_All drv cursor ctx elem) ;;
        let '(elem', err) := r in
        match err with
        | Some e => log_Println (Error e) ;; ret (elem', Some e)
        | None => ret (elem', None)
        end
    end).

(** *** The operations as data *)

(** How a call ended, without its result. *)
Inductive Ending : Type := Returned | Panicked | Exited.

Definition ending {A} (o : Outcome A) : Ending :=
  match o with
  | Ret _ => Returned
  | Panic _ => Panicked
  | Exit _ => Exited
  end.

(** The operations of a [CollectionWrapper], and index creation, each with
    all the arguments its Go signature has. *)
Inductive Op : Type :=
| OpFindOne (c : CollectionWrapper) (query : bsonM) (model : M)
| OpFindOneById (c : CollectionWrapper) (id : string) (model : M)
| OpFindOneAndUpdate (c : CollectionWrapper) (find update : bsonM) (updated : M)
| OpFindByIdAndUpdate (c : CollectionWrapper) (idHex : string) (update : bsonM)
    (updated : M)
| OpNew (c : CollectionWrapper) (document : M)
| OpFindMany (c : CollectionWrapper) (bson : Value) (elem : list M)
| OpFindManyPopulate (c : CollectionWrapper) (matchQuery : bsonD)
    (populate : Populate) (elem : list M)
| OpCreateIndex (collectionName field : string) (unique sparse : bool).

Definition forget {A} (r : Outcome A * World') : Ending * World' :=
  (ending (fst r), snd r).

Definition run_op (op : Op) (w : World') : Ending * World' :=
  match op with
  | OpFindOne c query model => forget (FindOne c query model w)
  | OpFindOneById c id model => forget (FindOneById c id model w)
  | OpFindOneAndUpdate c find update updated =>
      forget (FindOneAndUpdate c find update updated w)
  | OpFindByIdAndUpdate c idHex update updated =>
      forget (FindByIdAndUpdate c idHex update updated w)
  | OpNew c document => forget (New c document w)
  | OpFindMany c bson elem => forget (FindMany c bson elem w)
  | OpFindManyPopulate c matchQuery spec elem =>
      forget (FindManyPopulate c matchQuery spec elem w)
  | OpCreateIndex collectionName field unique sparse =>
      forget (CreateIndex collectionName field unique sparse w)
  end.

(** The time limit the specification gives for each kind of call. *)
Definition op_timeout (op : Op) : Z :=
  match op with
  | OpCreateIndex _ _ _ _ => 5 * Second
  | _ => 10 * Second
  end.

(** [options.FindOneAndUpdate().SetReturnDocument(options.Before)] *)
Definition ask_before : FindOneAndUpdateOptions :=
  {| fou_ReturnDocument := Some Before; fou_Upsert := None |}.

(** The driver's default for find-and-update, as its documentation has it: a
    call without options is a call that asks for the document before the
    update.  Both calls are refused alike when the update is refused. *)
Definition default_return_is_before : Prop :=
  forall coll ctx filter update s,
    drv_FindOneAndUpdate drv coll ctx filter update [] s
    = drv_FindOneAndUpdate drv coll ctx filter update [ask_before] s.

(** What asking for the document before the update means: when such a call
    succeeds (a document matched and the update was accepted, so that the
    result decodes without error), the result decodes to what the result of a
    plain find with the same filter decodes to in the same state of the
    server.  Nothing is asked of a call that fails. *)
Definition before_is_found_document : Prop :=
  forall coll ctx ctx' filter update s out,
    let r := fst (drv_FindOneAndUpdate drv coll ctx filter update [ask_before] s) in
    snd (drv_Decode drv r out) = None ->
    drv_Decode drv r out
    = drv_Decode drv (fst (drv_FindOne drv coll ctx' filter s)) out.

(** What a single-document operation returns for the error [err] of the
    decode: nil, or a new error made of [msg] alone. *)
Definition generic_error (msg : string) (err : option error) : option error :=
  match err with
  | Some _ => Some (errors_New msg)
  | None => None
  end.

(** The world after a call that made the context [ctx], then the driver calls
    [calls], then cancelled [ctx], wrote [out] and [err] and left the server
    in state [s]. *)
Definition after (w : World') (ctx : Context) (calls : list (Call Client Cursor M))
  (s : Server) (out err : list string) : World' :=
  {| DB := DB w; DatabaseName := DatabaseName w; server := s;
     next_ctx := S (next_ctx w);
     trace := trace w ++ EvWithTimeout ctx :: map EvCall calls ++ [EvCancel ctx];
     stdout := stdout w ++ out; stderr := stderr w ++ err |}.

(** The context a call makes in world [w] with time limit [d]. *)
Definition fresh_ctx (w : World') (d : Z) : Context :=
  {| ctx_id := next_ctx w; ctx_timeout := d |}.

(** The line [fmt.Println(err)] or [log.Println(err)] writes when [err] is an
    error, and nothing when it is nil. *)
Definition printed (err : option error) : list string :=
  match err with
  | Some e => [Error e]
  | None => []
  end.

(** The index [CreateIndex] asks for. *)
Definition index_model (field : string) (unique sparse : bool) : IndexModel :=
  {| Keys := VM {[ field := VInt 1 ]};
     Options := {| Unique := Some unique; Sparse := Some sparse; Name := None;
                   ExpireAfterSeconds := None;
                   PartialFilterExpression := None |} |}.

(** The pipeline the specification describes for a populate. *)
Definition populate_pipeline (matchQuery : bsonD) (spec : Populate) : Pipeline :=
  [ [("$match", VD matchQuery)];
    [("$lookup", VD [("from", VString (ForeignModel spec));
                     ("localField", VString (LocalField spec));
                     ("foreignField", VString "_id");
                     ("as", VString (As spec))])] ].

(** The context an event is about. *)
Definition event_ctx (e : Event Client Cursor M) : Context :=
  match e with
  | EvWithTimeout ctx | EvCancel ctx => ctx
  | EvCall c => call_ctx c
  end.

(** Every context the trace mentions was made before now. *)
Definition trace_wf (w : World') : Prop :=
  Forall (fun e => (ctx_id (event_ctx e) < next_ctx w)%nat) (trace w).

(** The wrapper an operation is called on; index creation has none. *)
Definition op_wrapper (op : Op) : option CollectionWrapper :=
  match op with
  | OpFindOne c _ _ | OpFindOneById c _ _ | OpFindOneAndUpdate c _ _ _
  | OpFindByIdAndUpdate c _ _ _ | OpNew c _ | OpFindMany c _ _
  | OpFindManyPopulate c _ _ _ => Some c
  | OpCreateIndex _ _ _ _ => None
  end.

(** The collection a driver call is made on, for the calls that have one. *)
Definition call_coll (c : Call Client Cursor M) : option (Collection Client) :=
  match c with
  | CFindOne coll _ _ | CFindOneAndUpdate coll _ _ _ _ | CInsertOne coll _ _
  | CFind coll _ _ | CAggregate coll _ _ | CCreateOne coll _ _ => Some coll
  | CConnect _ _ | CPing _ _ | CAll _ _ => None
  end.

(** Operations one after the other, each in the world the one before left,
    however that one ended. *)
Fixpoint run_ops (ops : list Op) (w : World') : World' :=
  match ops with
  | [] => w
  | op :: rest => run_ops rest (snd (run_op op w))
  end.

(** The contexts a trace makes, and the contexts it cancels, in order. *)
Fixpoint created (t : list (Event Client Cursor M)) : list Context :=
  match t with
  | [] => []
  | EvWithTimeout ctx :: rest => ctx :: created rest
  | _ :: rest => created rest
  end.

Fixpoint cancelled (t : list (Event Client Cursor M)) : list Context :=
  match t with
  | [] => []
  | EvCancel ctx :: rest => ctx :: cancelled rest
  | _ :: rest => cancelled rest
  end.

End Package.

(** ** An in-memory driver

    A small database that implements the [Driver] interface: collections are
    lists of documents, a filter matches a document when each of its keys is
    bound in the document to the same scalar, an update is the one operator
    [$set] (an update that is empty or has a key that is no operator is
    refused, as the driver does; an operator other than [$set] is answered
    with a command error), and the aggregation stages are [$match] and
    [$lookup].  It is the
    instance at which the statements about an arbitrary driver are evaluated. *)

Module Mem.

Record Server : Type := {
  up : bool;
  colls : gmap (string * string) (list bsonM);
  indexes : list (string * string * IndexModel)
}.

Definition set_colls (c : gmap (string * string) (list bsonM)) (s : Server) :
  Server :=
  {| up := up s; colls := c; indexes := indexes s |}.

Definition ErrNoDocuments : error := errors_New "mongo: no documents in result".
Definition ErrServerSelection : error := errors_New "server selection error".
Definition ErrCommand : error := errors_New "command failed".
Definition ErrEmptyUpdate : error :=
  errors_New "update document must have at least one element".
Definition ErrUpdateKey : error :=
  errors_New "update document must contain key beginning with '$'".

Definition scalar_eqb (a b : Value) : bool :=
  match a, b with
  | VNull, VNull => true
  | VBool x, VBool y => Bool.eqb x y
  | VInt x, VInt y => (x =? y)%Z
  | VString x, VString y => String.eqb x y
  | VObjectID x, VObjectID y => bool_decide (x = y)
  | _, _ => false
  end.

Definition matches (filter doc : bsonM) : bool :=
  map_fold
    (fun k v acc =>
       acc && match doc !! k with
              | Some v' => scalar_eqb v v'
              | None => false
              end)
    true filter.

Definition docs_of (s : Server) (coll : Collection string) : list bsonM :=
  default [] (colls s !! (coll_database coll, coll_name coll)).

Definition put_docs (coll : Collection string) (docs : list bsonM) (s : Server) :
  Server :=
  set_colls (<[ (coll_database coll, coll_name coll) := docs ]> (colls s)) s.

Definition apply_update (update doc : bsonM) : bsonM :=
  match update !! "$set" with
  | Some (VM fields) => fields ∪ doc
  | _ => doc
  end.

Definition is_operator (k : string) : bool :=
  match k with
  | String "$" _ => true
  | _ => false
  end.

(** The error an update is refused with, if it is refused. *)
Definition update_error (update : bsonM) : option error :=
  match map_to_list update with
  | [] => Some ErrEmptyUpdate
  | l =>
      if forallb (fun kv => is_operator (fst kv)) l
      then match l with
           | [("$set", VM _)] => None
           | _ => Some ErrCommand
           end
      else Some ErrUpdateKey
  end.

(** The first matching document before and after the update, and the
    collection with that document updated. *)
Fixpoint update_first (filter update : bsonM) (docs : list bsonM) :
  option (bsonM * bsonM) * list bsonM :=
  match docs with
  | [] => (None, [])
  | d :: rest =>
      if matches filter d
      then (Some (d, apply_update update d), apply_update update d :: rest)
      else let '(r, rest') := update_first filter update rest in (r, d :: rest')
  end.

(** The options of a call are merged, a later setting wins; the default is
    the document before the update. *)
Definition return_document (opts : list FindOneAndUpdateOptions) : ReturnDocument :=
  fold_left
    (fun acc o => match fou_ReturnDocument o with Some r => r | None => acc end)
    opts Before.

Definition NewClient (uri : string) : string + error :=
  if String.eqb uri "" then inr (errors_New "error parsing uri") else inl uri.

Definition Ping (client : string) (ctx : Context) (s : Server) :
  option error * Server :=
  if up s then (None, s) else (Some ErrServerSelection, s).

Definition FindOne (coll : Collection string) (ctx : Context) (filter : bsonM)
  (s : Server) : (bsonM + error) * Server :=
  if up s then
    match List.filter (matches filter) (docs_of s coll) with
    | d :: _ => (inl d, s)
    | [] => (inr ErrNoDocuments, s)
    end
  else (inr ErrServerSelection, s).

Definition FindOneAndUpdate (coll : Collection string) (ctx : Context)
  (filter update : bsonM) (opts : list FindOneAndUpdateOptions) (s : Server) :
  (bsonM + error) * Server :=
  match update_error update with
  | Some e => (inr e, s)
  | None =>
      if up s then
        match update_first filter update (docs_of s coll) with
        | (Some (old, new), docs') =>
            (inl (match return_document opts with Before => old | After => new end),
             put_docs coll docs' s)
        | (None, _) => (inr ErrNoDocuments, s)
        end
      else (inr ErrServerSelection, s)
  end.

Definition Decode (sr : bsonM + error) (v : bsonM) : bsonM * option error :=
  match sr with
  | inl d => (d, None)
  | inr e => (v, Some e)
  end.

Definition InsertOne (coll : Collection string) (ctx : Context) (doc : bsonM)
  (s : Server) : (option Value * option error) * Server :=
  if up s then ((doc !! "_id", None), put_docs coll (docs_of s coll ++ [doc]) s)
  else ((None, Some ErrServerSelection), s).

Definition Find (coll : Collection string) (ctx : Context) (filter : Value)
  (s : Server) : (list bsonM + error) * Server :=
  if up s then
    match filter with
    | VM m => (inl (List.filter (matches m) (docs_of s coll)), s)
    | VD d => (inl (List.filter (matches (list_to_map d)) (docs_of s coll)), s)
    | _ => (inr ErrCommand, s)
    end
  else (inr ErrServerSelection, s).

Fixpoint d_get (k : string) (d : bsonD) : option Value :=
  match d with
  | [] => None
  | (k', v) :: rest => if String.eqb k k' then Some v else d_get k rest
  end.

(** [$lookup]: under [as], the documents of [from] whose [foreignField] is
    the document's [localField] or one of its elements. *)
Definition lookup_stage (s : Server) (db : string) (spec : bsonD)
  (docs : list bsonM) : list bsonM + error :=
  match d_get "from" spec, d_get "localField" spec,
        d_get "foreignField" spec, d_get "as" spec with
  | Some (VString from), Some (VString lf), Some (VString ff), Some (VString as_) =>
      let foreign := default [] (colls s !! (db, from)) in
      inl (map
             (fun doc : bsonM =>
                let joined :=
                  List.filter
                    (fun f : bsonM =>
                       match f !! ff, doc !! lf with
                       | Some fv, Some (VA l) => existsb (scalar_eqb fv) l
                       | Some fv, Some lv => scalar_eqb fv lv
                       | _, _ => false
                       end)
                    foreign in
                <[ as_ := VA (map VM joined) ]> doc)
             docs)
  | _, _, _, _ => inr ErrCommand
  end.

Fixpoint run_pipeline (s : Server) (db : string) (pipeline : Pipeline)
  (docs : list bsonM) : list bsonM + error :=
  match pipeline with
  | [] => inl docs
  | [("$match", VD q)] :: rest =>
      run_pipeline s db rest (List.filter (matches (list_to_map q)) docs)
  | [("$lookup", VD spec)] :: rest =>
      match lookup_stage s db spec docs with
      | inl docs' => run_pipeline s db rest docs'
      | inr e => inr e
      end
  | _ :: _ => inr ErrCommand
  end.

Definition Aggregate (coll : Collection string) (ctx : Context)
  (pipeline : Pipeline) (s : Server) : (list bsonM + error) * Server :=
  if up s then (run_pipeline s (coll_database coll) pipeline (docs_of s coll), s)
  else (inr ErrServerSelection, s).

Definition All (cursor : list bsonM) (ctx : Context) (elem : list bsonM)
  (s : Server) : (list bsonM * option error) * Server :=
  ((cursor, None), s).

Definition CreateOne (coll : Collection string) (ctx : Context)
  (model : IndexModel) (s : Server) : (string * option error) * Server :=
  if up s then
    match Keys model with
    | VM m =>
        match map_to_list m with
        | [(k, VInt 1)] =>
            ((String.append k "_1", None),
             {| up := up s; colls := colls s;
                indexes := indexes s ++ [(coll_database coll, coll_name coll, model)] |})
        | _ => (("", Some ErrCommand), s)
        end
    | _ => (("", Some ErrCommand), s)
    end
  else (("", Some ErrServerSelection), s).

Definition driver : Driver Server string (bsonM + error) (list bsonM) bsonM :=
  {| drv_NewClient := NewClient;
     drv_Connect := fun _ _ s => (None, s);
     drv_Ping := Ping;
     drv_FindOne := FindOne;
     drv_FindOneAndUpdate := FindOneAndUpdate;
     drv_Decode := Decode;
     drv_InsertOne := InsertOne;
     drv_Find := Find;
     drv_Aggregate := Aggregate;
     drv_All := All;
     drv_CreateOne := CreateOne |}.

(** The world of a process that has just started, with an empty database. *)
Definition start (is_up : bool) : World Server string (list bsonM) bsonM :=
  {| DB := None; DatabaseName := "";
     server := {| up := is_up; colls := ∅; indexes := [] |};
     next_ctx := 0; trace := []; stdout := []; stderr := [] |}.

End Mem.

(** ** A small database for the examples *)

Module Example.

Local Open Scope comp_scope.

Definition uri : string := "mongodb://localhost".

Definition A : ObjectID := ObjId "62d04ca380bfc30a1436f590".
Definition B : ObjectID := ObjId "62d04ca380bfc30a1436f591".

Definition king : bsonM := {[ "_id" := VObjectID A; "role" := VString "King" ]}.
Definition queen : bsonM := {[ "_id" := VObjectID B; "role" := VString "Queen" ]}.

(** The wrapper [NewCollectionWrapper[...]("users")] gives after
    [ConnectDB(uri, "test")]. *)
Definition users : @CollectionWrapper string :=
  {| wrapper_I := Build_Collection uri "test" "users"; wrapper_name := "users" |}.

(** The world after a successful [ConnectDB]. *)
Definition connected : World Mem.Server string (list bsonM) bsonM :=
  snd (ConnectDB Mem.driver uri "test" (Mem.start true)).

(** ... and after the two documents were inserted. *)
Definition populated : World Mem.Server string (list bsonM) bsonM :=
  snd ((New Mem.driver users king ;; New Mem.driver users queen) connected).

(** [{"$set": {"role": "Jack"}}] *)
Definition to_jack : bsonM := {[ "$set" := VM {[ "role" := VString "Jack" ]} ]}.

Definition jack : bsonM := {[ "_id" := VObjectID B; "role" := VString "Jack" ]}.

(** [users.FindMany(bson.M{}, &out)], and a run of three operations. *)
Definition find_all : @Op string bsonM := OpFindMany users (VM ∅) [].

Definition session : list (@Op string bsonM) :=
  [OpNew users king; OpCreateIndex "users" "role" true false; find_all].

End Example.

(** * Properties *)

(** ** Parsing identifiers *)

Lemma fromHexChar_is_hex_digit (c : ascii) :
  is_hex_digit c = match fromHexChar c with Some _ => true | None => false end.
Proof. destruct c as [[] [] [] [] [] [] [] []]; reflexivity. Qed.

Lemma fromHexChar_range (c : ascii) (v : Z) :
  fromHexChar c = Some v -> 0 <= v < 16.
Proof.
  unfold fromHexChar. intros H.
  repeat match type of H with
         | (if ?b then _ else _) = _ => destruct b eqn:?
         end; inversion H; subst; lia.
Qed.

(** The two-characters-at-a-time recursion of the decoder, as an induction
    principle on strings. *)
Lemma string_pair_ind (P : string -> Prop) :
  P EmptyString ->
  (forall p, P (String p EmptyString)) ->
  (forall p q rest, P rest -> P (String p (String q rest))) ->
  forall s, P s.
Proof.
  intros H0 H1 H2.
  assert (Hboth : forall s, P s /\ forall c, P (String c s)).
  { induction s as [|c s [IHs IHc]]; split; auto. }
  intros s. apply Hboth.
Qed.

Lemma hex_DecodeString_not_hex (s : string) :
  all_hex s = false -> exists e, snd (hex_DecodeString s) = Some e.
Proof.
  induction s as [|p|p q rest IH] using string_pair_ind; simpl.
  - discriminate.
  - destruct (fromHexChar p); simpl; eauto.
  - rewrite !fromHexChar_is_hex_digit.
    destruct (fromHexChar p); simpl; eauto.
    destruct (fromHexChar q); simpl; eauto.
    intros H. destruct (IH H) as [e He].
    destruct (hex_DecodeString rest) as [bs err]. simpl in *. eauto.
Qed.

Lemma hex_DecodeString_hex (s : string) :
  all_hex s = true -> Nat.even (String.length s) = true ->
  snd (hex_DecodeString s) = None
  /\ (2 * List.length (fst (hex_DecodeString s)) = String.length s)%nat
  /\ Forall (fun b => 0 <= b < 256) (fst (hex_DecodeString s)).
Proof.
  induction s as [|p|p q rest IH] using string_pair_ind.
  - simpl. auto.
  - simpl. discriminate.
  - cbn [all_hex String.length Nat.even hex_DecodeString].
    rewrite !fromHexChar_is_hex_digit.
    destruct (fromHexChar p) as [a|] eqn:Ha; [|discriminate].
    destruct (fromHexChar q) as [b|] eqn:Hb; [|discriminate].
    intros Hall Hlen. destruct (IH Hall Hlen) as (He & Hl & Hr).
    destruct (hex_DecodeString rest) as [bs err]. simpl in *.
    repeat split; [assumption | lia |].
    constructor; [|assumption].
    apply fromHexChar_range in Ha, Hb.
    assert (Hlor : Z.lor (Z.shiftl a 4) b = 16 * a + b).
    { assert (a ∈ seqZ 0 16) as Ha' by (apply elem_of_seqZ; lia).
      assert (b ∈ seqZ 0 16) as Hb' by (apply elem_of_seqZ; lia).
      vm_compute in Ha', Hb'.
      repeat (apply elem_of_cons in Ha' as [->|Ha']);
        [..|by apply elem_of_nil in Ha'];
        repeat (apply elem_of_cons in Hb' as [->|Hb']);
        try reflexivity; by apply elem_of_nil in Hb'. }
    rewrite Hlor. lia.
Qed.

(** A valid identifier string parses without error into 12 bytes. *)
Lemma ObjId_valid (s : string) :
  valid_hex_id s = true ->
  ObjectIDFromHex s = (ObjId s, None)
  /\ List.length (ObjId s) = 12%nat
  /\ Forall (fun b => 0 <= b < 256) (ObjId s).
Proof.
  unfold valid_hex_id, ObjId, ObjectIDFromHex. intros H.
  apply andb_true_iff in H as [Hlen Hall]. apply Nat.eqb_eq in Hlen.
  rewrite Hlen. simpl.
  destruct (hex_DecodeString_hex s Hall) as (He & Hl & Hr).
  { rewrite Hlen. reflexivity. }
  destruct (hex_DecodeString s) as [bs err]. simpl in *. subst err.
  repeat split; [lia | assumption].
Qed.

(** The parse of a string that is not a valid identifier fails, and the
    identifier returned with the error is the zero value. *)
Lemma ObjectIDFromHex_invalid (s : string) :
  valid_hex_id s = false -> exists e, ObjectIDFromHex s = (NilObjectID, Some e).
Proof.
  unfold valid_hex_id, ObjectIDFromHex. intros H.
  destruct (Z.of_nat (String.length s) =? 24) eqn:Hlen; simpl; [|eauto].
  apply Z.eqb_eq in Hlen.
  assert (Hn : String.length s = 24%nat) by lia.
  rewrite Hn in H. simpl in H.
  destruct (hex_DecodeString_not_hex s H) as [e He].
  destruct (hex_DecodeString s) as [bs err]. simpl in He. subst err. eauto.
Qed.

(** C3. For every string that is not a valid identifier (24 hexadecimal
    digits), the parse [ObjectIDFromHex] fails with some error, and [ObjId]
    drops that error and returns the zero-value identifier.  [ObjId] is a total
    function into identifiers: it has no error result and it does not panic. *)
Theorem ObjId_invalid_is_zero (s : string) :
  valid_hex_id s = false ->
  ObjId s = NilObjectID /\ exists e, ObjectIDFromHex s = (NilObjectID, Some e).
Proof.
  intros H. destruct (ObjectIDFromHex_invalid s H) as [e He].
  unfold ObjId. rewrite He. eauto.
Qed.

Lemma ObjId_invalid_is_zero_witness :
  valid_hex_id "USER_ID" = false
  /\ ObjId "USER_ID" = NilObjectID
  /\ exists e, ObjectIDFromHex "USER_ID" = (NilObjectID, Some e).
Proof.
  split; [reflexivity | apply (ObjId_invalid_is_zero "USER_ID"); reflexivity].
Defined.

(** ** What each function does, in one equation

    Each lemma gives the outcome and the final world of a function of the
    package in terms of the results of the driver calls it makes. *)

Section Runs.

Context {Server Client SingleResult Cursor M : Type}.
Variable drv : Driver Server Client SingleResult Cursor M.

Ltac unfold_package :=
  unfold FindOneById, FindByIdAndUpdate, FindOne, FindOneAndUpdate, New,
    FindMany, FindManyPopulate, CreateIndex, NewCollectionWrapper,
    GetCollection, ConnectDB, GetContext, DB_Database_Collection,
    context_WithTimeout, cancel_ctx, call, fmt_Println, log_Println,
    log_Fatal, defer, bind, ret, after, fresh_ctx, emit, set_server,
    set_next_ctx, set_DB, set_DatabaseName, write_stdout, write_stderr;
  cbn [DB DatabaseName server next_ctx trace stdout stderr fst snd].

Ltac tidy :=
  cbn [DB DatabaseName server next_ctx trace stdout stderr fst snd map];
  rewrite <- ?app_assoc, ?app_nil_r; cbn [app]; try reflexivity.

Lemma FindOne_run c query model w :
  let ctx := fresh_ctx w (10 * Second) in
  let r := drv_FindOne drv (wrapper_I c) ctx query (server w) in
  let d := drv_Decode drv (fst r) model in
  FindOne drv c query model w
  = (Ret (fst d, generic_error "Cannot find document" (snd d)),
     after w ctx [CFindOne (wrapper_I c) ctx query] (snd r) [] []).
Proof.
  unfold_package.
  destruct (drv_FindOne _ _ _ _ _) as [sr s'].
  cbn [fst snd]. destruct (drv_Decode _ _ _) as [m' [e|]]; tidy.
Qed.

Lemma FindOneAndUpdate_run c find update updated w :
  let ctx := fresh_ctx w (10 * Second) in
  let r := drv_FindOneAndUpdate drv (wrapper_I c) ctx find update [] (server w) in
  let d := drv_Decode drv (fst r) updated in
  FindOneAndUpdate drv c find update updated w
  = (Ret (fst d, generic_error "Cannot update document" (snd d)),
     after w ctx [CFindOneAndUpdate (wrapper_I c) ctx find update []] (snd r)
       (printed (snd d)) []).
Proof.
  unfold_package.
  destruct (drv_FindOneAndUpdate _ _ _ _ _ _ _) as [sr s'].
  cbn [fst snd]. destruct (drv_Decode _ _ _) as [m' [e|]]; tidy.
Qed.

Lemma New_run c document w :
  let ctx := fresh_ctx w (10 * Second) in
  let r := drv_InsertOne drv (wrapper_I c) ctx document (server w) in
  New drv c document w
  = (Ret (snd (fst r)),
     after w ctx [CInsertOne (wrapper_I c) ctx document] (snd r) [] []).
Proof.
  unfold_package.
  destruct (drv_InsertOne _ _ _ _ _) as [[res err] s']. tidy.
Qed.

Lemma FindMany_run c bson elem w :
  let ctx := fresh_ctx w (10 * Second) in
  let r := drv_Find drv (wrapper_I c) ctx bson (server w) in
  FindMany drv c bson elem w
  = match fst r with
    | inr e =>
        (Ret (elem, Some e), after w ctx [CFind (wrapper_I c) ctx bson] (snd r) [] [])
    | inl cursor =>
        let a := drv_All drv cursor ctx elem (snd r) in
        (Ret (fst a),
         after w ctx [CFind (wrapper_I c) ctx bson; CAll cursor ctx] (snd a) [] [])
    end.
Proof.
  unfold_package.
  destruct (drv_Find _ _ _ _ _) as [[cursor|e] s']; cbn [fst snd]; [|tidy].
  destruct (drv_All _ _ _ _ _) as [[elem' [e|]] s'']; tidy.
Qed.

Lemma FindManyPopulate_run c matchQuery spec elem w :
  let ctx := fresh_ctx w (10 * Second) in
  let pipeline := populate_pipeline matchQuery spec in
  let r := drv_Aggregate drv (wrapper_I c) ctx pipeline (server w) in
  FindManyPopulate drv c matchQuery spec elem w
  = match fst r with
    | inr e =>
        (Ret (elem, Some e),
         after w ctx [CAggregate (wrapper_I c) ctx pipeline] (snd r) [] [])
    | inl cursor =>
        let a := drv_All drv cursor ctx elem (snd r) in
        (Ret (fst a),
         after w ctx [CAggregate (wrapper_I c) ctx pipeline; CAll cursor ctx]
           (snd a) [] (printed (snd (fst a))))
    end.
Proof.
  unfold_package. unfold populate_pipeline.
  destruct (drv_Aggregate _ _ _ _ _) as [[cursor|e] s']; cbn [fst snd]; [|tidy].
  destruct (drv_All _ _ _ _ _) as [[elem' [e|]] s'']; tidy.
Qed.

Lemma CreateIndex_run collectionName field unique sparse w :
  let ctx := fresh_ctx w (5 * Second) in
  let model := index_model field unique sparse in
  CreateIndex drv collectionName field unique sparse w
  = match DB w with
    | None => (Panic nil_dereference, after w ctx [] (server w) [] [])
    | Some client =>
        let coll := Build_Collection client (DatabaseName w) collectionName in
        let r := drv_CreateOne drv coll ctx model (server w) in
        (Ret (match snd (fst r) with Some _ => false | None => true end),
         after w ctx [CCreateOne coll ctx model] (snd r) (printed (snd (fst r))) [])
    end.
Proof.
  unfold_package. unfold index_model, SetSparse, SetUnique, options_Index.
  cbn [Unique Sparse Name ExpireAfterSeconds PartialFilterExpression].
  destruct (DB w) as [client|]; [|tidy].
  destruct (drv_CreateOne _ _ _ _ _) as [[name [e|]] s']; tidy.
Qed.

Lemma GetCollection_run collectionName (w : World Server Client Cursor M) :
  GetCollection collectionName w
  = match DB w with
    | None => (Panic nil_dereference, w)
    | Some client =>
        (Ret (Build_Collection client (DatabaseName w) collectionName), w)
    end.
Proof. unfold_package. destruct (DB w); reflexivity. Qed.

Lemma NewCollectionWrapper_run name (w : World Server Client Cursor M) :
  NewCollectionWrapper name w
  = match DB w with
    | None => (Panic nil_dereference, w)
    | Some client =>
        (Ret {| wrapper_I := Build_Collection client (DatabaseName w) name;
                wrapper_name := name |}, w)
    end.
Proof. unfold_package. destruct (DB w); reflexivity. Qed.

Lemma ConnectDB_sets_DB uri databaseName (w : World Server Client Cursor M) :
  match ConnectDB drv uri databaseName w with
  | (Ret client, w') => DB w' = Some client /\ DatabaseName w' = databaseName
  | (Exit _, w') => DB w' = DB w
  | (Panic _, _) => False
  end.
Proof.
  unfold_package.
  destruct (drv_NewClient drv uri) as [client|e]; cbn; [|reflexivity].
  destruct (drv_Connect _ _ _ _) as [[e|] s1]; cbn; [reflexivity|].
  destruct (drv_Ping _ _ _ _) as [[e|] s2]; cbn; [reflexivity|].
  split; reflexivity.
Qed.

(** Every operation leaves the world it found, but for one new context that
    it made and cancelled, the driver calls made under that context, the
    server's new state and the lines written; and none ends the process. *)
Lemma run_op_after (op : Op) (w : World Server Client Cursor M) :
  let ctx := fresh_ctx w (op_timeout op) in
  exists calls s out err,
    snd (run_op drv op w) = after w ctx calls s out err
    /\ Forall (fun c => call_ctx c = ctx) calls
    /\ fst (run_op drv op w) <> Exited.
Proof.
  destruct op; cbv zeta; cbn [run_op op_timeout]; unfold forget;
    unfold FindOneById, FindByIdAndUpdate;
    rewrite ?FindOne_run, ?FindOneAndUpdate_run, ?New_run, ?FindMany_run,
      ?FindManyPopulate_run, ?CreateIndex_run; cbv zeta.
  - do 4 eexists. split; [reflexivity|]. split; [|discriminate].
    repeat constructor.
  - do 4 eexists. split; [reflexivity|]. split; [|discriminate].
    repeat constructor.
  - do 4 eexists. split; [reflexivity|]. split; [|discriminate].
    repeat constructor.
  - do 4 eexists. split; [reflexivity|]. split; [|discriminate].
    repeat constructor.
  - do 4 eexists. split; [reflexivity|]. split; [|discriminate].
    repeat constructor.
  - destruct (fst (drv_Find _ _ _ _ _)); do 4 eexists;
      (split; [reflexivity|]; split; [|discriminate]); repeat constructor.
  - destruct (fst (drv_Aggregate _ _ _ _ _)); do 4 eexists;
      (split; [reflexivity|]; split; [|discriminate]); repeat constructor.
  - destruct (DB w); do 4 eexists;
      (split; [reflexivity|]; split; [|discriminate]); repeat constructor.
Qed.

(** The context an operation makes is not one the trace already mentions,
    and this stays so after the operation. *)
Lemma run_op_trace_wf (op : Op) (w : World Server Client Cursor M) :
  trace_wf w ->
  Forall (fun e => event_ctx e <> fresh_ctx w (op_timeout op)) (trace w)
  /\ trace_wf (snd (run_op drv op w)).
Proof.
  intros Hwf. split.
  - eapply Forall_impl; [exact Hwf|]. intros e He Heq. cbn beta in He.
    rewrite Heq in He. cbn in He. lia.
  - destruct (run_op_after op w) as (calls & s & out & err & -> & Hcalls & _).
    unfold trace_wf, after. cbn [trace next_ctx].
    apply Forall_app. split.
    + eapply Forall_impl; [exact Hwf|]. cbn. intros e He. lia.
    + constructor; [cbn; lia|]. apply Forall_app. split.
      * apply Forall_fmap. eapply Forall_impl; [exact Hcalls|].
        intros c0 Hc. cbn. rewrite Hc. cbn. lia.
      * repeat constructor.
Qed.

End Runs.

(** ** The in-memory driver keeps the driver's default *)

Lemma Mem_update_first filter update docs :
  fst (Mem.update_first filter update docs)
  = match List.filter (Mem.matches filter) docs with
    | d :: _ => Some (d, Mem.apply_update update d)
    | [] => None
    end.
Proof.
  induction docs as [|d rest IH]; simpl; [reflexivity|].
  destruct (Mem.matches filter d); simpl; [reflexivity|].
  destruct (Mem.update_first filter update rest) as [r rest']. exact IH.
Qed.

Lemma Mem_default_is_before : default_return_is_before Mem.driver.
Proof. intros coll ctx filter update s. reflexivity. Qed.

Lemma Mem_before_is_found : before_is_found_document Mem.driver.
Proof.
  intros coll ctx ctx' filter update s out. cbn.
  unfold Mem.FindOneAndUpdate, Mem.FindOne.
  destruct (Mem.update_error update); [discriminate|].
  destruct (Mem.up s); [|discriminate].
  pose proof (Mem_update_first filter update (Mem.docs_of s coll)) as H.
  destruct (Mem.update_first _ _ _) as [[[old new]|] docs']; cbn in H |- *;
    [|discriminate].
  destruct (List.filter _ _) as [|d l]; inversion H. reflexivity.
Qed.

(** ** The claims about the package *)

Section Claims.

Context {Server Client SingleResult Cursor M : Type}.
Variable drv : Driver Server Client SingleResult Cursor M.

(** C1. [FindOneById(id, out)] is [FindOne({_id: ObjId(id)}, out)]: in every
    world and for every value behind the out pointer the two calls end the
    same way, with the same error, the same decoded document and the same
    final world.  When [id] is not a valid identifier string the filter
    carries the zero-value identifier. *)
Theorem FindOneById_is_FindOne (c : @CollectionWrapper Client) (id : string)
  (model : M) (w : World Server Client Cursor M) :
  FindOneById drv c id model w
  = FindOne drv c {[ "_id" := VObjectID (ObjId id) ]} model w
  /\ (valid_hex_id id = false ->
      FindOneById drv c id model w
      = FindOne drv c {[ "_id" := VObjectID NilObjectID ]} model w).
Proof.
  split; [reflexivity|].
  intros H. unfold FindOneById, ObjId.
  destruct (ObjectIDFromHex_invalid id H) as [e ->]. reflexivity.
Qed.

(** C2. [FindByIdAndUpdate(id, u, out)] is
    [FindOneAndUpdate({_id: ObjId(id)}, u, out)]: same outcome, same error,
    same decoded document, same final world. *)
Theorem FindByIdAndUpdate_is_FindOneAndUpdate (c : @CollectionWrapper Client)
  (idHex : string) (update : bsonM) (updated : M)
  (w : World Server Client Cursor M) :
  FindByIdAndUpdate drv c idHex update updated w
  = FindOneAndUpdate drv c {[ "_id" := VObjectID (ObjId idHex) ]} update updated w.
Proof. reflexivity. Qed.

(** C4. [FindOne] and [FindOneAndUpdate] return nil when the decode of the
    driver's result succeeds.  When it fails with an error [e] (no document,
    or a document that does not decode) they return a new error made of the
    fixed text alone, ["Cannot find document"] or ["Cannot update document"]:
    it wraps nothing, so [e] is not reachable from it. *)
Theorem single_document_error_is_generic (c : @CollectionWrapper Client)
  (query update : bsonM) (model : M) (w : World Server Client Cursor M) :
  let ctx := fresh_ctx w (10 * Second) in
  let found := drv_Decode drv
    (fst (drv_FindOne drv (wrapper_I c) ctx query (server w))) model in
  let updated := drv_Decode drv
    (fst (drv_FindOneAndUpdate drv (wrapper_I c) ctx query update [] (server w)))
    model in
  match snd found with
  | None => fst (FindOne drv c query model w) = Ret (fst found, None)
  | Some e =>
      fst (FindOne drv c query model w)
      = Ret (fst found, Some (errors_New "Cannot find document"))
      /\ Unwrap (errors_New "Cannot find document") = None
      /\ ~ chains (errors_New "Cannot find document") e
  end
  /\ match snd updated with
     | None =>
         fst (FindOneAndUpdate drv c query update model w) = Ret (fst updated, None)
     | Some e =>
         fst (FindOneAndUpdate drv c query update model w)
         = Ret (fst updated, Some (errors_New "Cannot update document"))
         /\ Unwrap (errors_New "Cannot update document") = None
         /\ ~ chains (errors_New "Cannot update document") e
     end.
Proof.
  intros ctx found updated. subst found updated ctx.
  rewrite FindOne_run, FindOneAndUpdate_run. cbn [fst snd].
  split.
  - destruct (snd (drv_Decode _ _ _)) as [e|]; simpl; auto.
  - destruct (snd (drv_Decode _ _ _)) as [e|]; simpl; auto.
Qed.

(** C5. [New], [FindMany] and [FindManyPopulate] return the error of the
    driver call as it is: the error of [InsertOne]; the error of [Find] (or of
    [Aggregate]) when that call fails, and otherwise the error of [All] on
    the cursor; nil exactly when the driver reports none. *)
Theorem multi_document_error_is_drivers (c : @CollectionWrapper Client)
  (document : M) (bson : Value) (matchQuery : bsonD) (spec : Populate)
  (elem : list M) (w : World Server Client Cursor M) :
  let ctx := fresh_ctx w (10 * Second) in
  let inserted := drv_InsertOne drv (wrapper_I c) ctx document (server w) in
  let found := drv_Find drv (wrapper_I c) ctx bson (server w) in
  let joined := drv_Aggregate drv (wrapper_I c) ctx
                  (populate_pipeline matchQuery spec) (server w) in
  fst (New drv c document w) = Ret (snd (fst inserted))
  /\ fst (FindMany drv c bson elem w)
     = match fst found with
       | inr e => Ret (elem, Some e)
       | inl cursor =>
           let a := fst (drv_All drv cursor ctx elem (snd found)) in
           Ret (fst a, snd a)
       end
  /\ fst (FindManyPopulate drv c matchQuery spec elem w)
     = match fst joined with
       | inr e => Ret (elem, Some e)
       | inl cursor =>
           let a := fst (drv_All drv cursor ctx elem (snd joined)) in
           Ret (fst a, snd a)
       end.
Proof.
  intros ctx inserted found joined. subst ctx inserted found joined.
  rewrite New_run, FindMany_run, FindManyPopulate_run. cbn [fst snd].
  repeat split.
  - destruct (fst (drv_Find _ _ _ _ _)) as [cursor|e]; cbn [fst]; [|reflexivity].
    destruct (fst (drv_All _ _ _ _ _)); reflexivity.
  - destruct (fst (drv_Aggregate _ _ _ _ _)) as [cursor|e]; cbn [fst]; [|reflexivity].
    destruct (fst (drv_All _ _ _ _ _)); reflexivity.
Qed.

(** C6. [FindManyPopulate] makes one [Aggregate] call, and its pipeline has
    exactly two stages: [$match] with [matchQuery] as given, then [$lookup]
    with [from] the foreign model, [localField] the local field,
    [foreignField] ["_id"] and [as] the output field.  The only other driver
    call of the operation is [All] on the cursor, when [Aggregate] gave one. *)
Theorem FindManyPopulate_pipeline (c : @CollectionWrapper Client)
  (matchQuery : bsonD) (spec : Populate) (elem : list M)
  (w : World Server Client Cursor M) :
  let ctx := fresh_ctx w (10 * Second) in
  let pipeline : Pipeline :=
    [ [("$match", VD matchQuery)];
      [("$lookup", VD [("from", VString (ForeignModel spec));
                       ("localField", VString (LocalField spec));
                       ("foreignField", VString "_id");
                       ("as", VString (As spec))])] ] in
  exists rest,
    trace (snd (FindManyPopulate drv c matchQuery spec elem w))
    = (trace w ++ EvWithTimeout ctx
         :: EvCall (CAggregate (wrapper_I c) ctx pipeline)
         :: map EvCall rest ++ [EvCancel ctx])%list
    /\ (rest = [] \/ exists cursor, rest = [CAll cursor ctx])
    /\ List.length pipeline = 2%nat.
Proof.
  intros ctx pipeline. rewrite FindManyPopulate_run.
  fold ctx. change (populate_pipeline matchQuery spec) with pipeline.
  destruct (fst (drv_Aggregate _ _ _ _ _)) as [cursor|e].
  - exists [CAll cursor ctx]. cbn. eauto.
  - exists []. cbn. eauto.
Qed.

(** C7. With a connected client, [CreateIndex] makes one driver call,
    [CreateOne], for one index: its key is the map with the single entry
    [field: 1] (ascending), its options set [unique] and [sparse] as given
    and nothing else, and the call runs under a context of 5 seconds that is
    cancelled afterwards.  When the driver reports an error the function
    prints the error's text and returns false; otherwise it returns true.  The
    result is a boolean: no error value comes out. *)
Theorem CreateIndex_requests_one_index (collectionName field : string)
  (unique sparse : bool) (w : World Server Client Cursor M) (client : Client) :
  DB w = Some client ->
  let ctx := {| ctx_id := next_ctx w; ctx_timeout := 5 * Second |} in
  let coll := Build_Collection client (DatabaseName w) collectionName in
  let model :=
    {| Keys := VM {[ field := VInt 1 ]};
       Options := {| Unique := Some unique; Sparse := Some sparse; Name := None;
                     ExpireAfterSeconds := None;
                     PartialFilterExpression := None |} |} in
  let r := CreateIndex drv collectionName field unique sparse w in
  trace (snd r)
  = (trace w ++ [EvWithTimeout ctx; EvCall (CCreateOne coll ctx model);
                 EvCancel ctx])%list
  /\ map_to_list ({[ field := VInt 1 ]} : bsonM) = [(field, VInt 1)]
  /\ match snd (fst (drv_CreateOne drv coll ctx model (server w))) with
     | Some e => fst r = Ret false /\ stdout (snd r) = (stdout w ++ [Error e])%list
     | None => fst r = Ret true /\ stdout (snd r) = stdout w
     end.
Proof.
  intros HDB ctx coll model r. subst r.
  rewrite CreateIndex_run, HDB. cbn [fst snd].
  split; [reflexivity|]. split; [apply map_to_list_singleton|].
  change (fresh_ctx w (5 * Second)) with ctx.
  change (index_model field unique sparse) with model.
  fold coll.
  destruct (snd (fst (drv_CreateOne _ _ _ _ _))) as [e|]; cbn.
  - split; reflexivity.
  - split; [reflexivity | apply app_nil_r].
Qed.

End Claims.

(** ** Contexts, the connection and the update's result *)

Section Discipline.

Context {Server Client SingleResult Cursor M : Type}.
Variable drv : Driver Server Client SingleResult Cursor M.

(** C8. Each of the seven operations of a [CollectionWrapper] makes one new
    context with a limit of 10 seconds, index creation one with a limit of 5
    seconds; every driver call of the operation gets that context; and the
    context is cancelled last, however the operation ends (it returns or
    panics, it never ends the process).  The context and its limit depend on
    nothing the caller passes: an [Op] has no context and no time limit among
    its arguments. *)
Theorem operations_own_context (op : @Op Client M)
  (w : World Server Client Cursor M) :
  let ctx := {| ctx_id := next_ctx w; ctx_timeout := op_timeout op |} in
  exists calls,
    trace (snd (run_op drv op w))
    = (trace w ++ EvWithTimeout ctx :: map EvCall calls ++ [EvCancel ctx])%list
    /\ Forall (fun c => call_ctx c = ctx) calls
    /\ next_ctx (snd (run_op drv op w)) = S (next_ctx w)
    /\ fst (run_op drv op w) <> Exited
    /\ ctx_timeout ctx
       = match op with
         | OpCreateIndex _ _ _ _ => 5000000000
         | _ => 10000000000
         end.
Proof.
  intros ctx.
  destruct (run_op_after drv op w) as (calls & s & out & err & Hw & Hcalls & Hend).
  exists calls. rewrite Hw.
  split; [reflexivity|]. split; [exact Hcalls|]. split; [reflexivity|].
  split; [exact Hend|]. destruct op; reflexivity.
Qed.

(** C9. While [DB] is nil, [GetCollection] and [NewCollectionWrapper] panic
    on the nil pointer, and no operation of the package makes [DB] non-nil
    except [ConnectDB], which does so only when it returns (every failure of
    it ends the process with [DB] still nil); after that return
    [GetCollection] gives the handle of the named collection. *)
Theorem GetCollection_needs_ConnectDB (w : World Server Client Cursor M) :
  DB w = None ->
  (forall name, GetCollection name w = (Panic nil_dereference, w))
  /\ (forall name, NewCollectionWrapper name w = (Panic nil_dereference, w))
  /\ (forall op, DB (snd (run_op drv op w)) = None)
  /\ (forall uri databaseName,
        match ConnectDB drv uri databaseName w with
        | (Ret client, w') =>
            DB w' = Some client
            /\ forall name,
                 GetCollection name w'
                 = (Ret (Build_Collection client databaseName name), w')
        | (Exit _, w') => DB w' = None
        | (Panic _, _) => False
        end).
Proof.
  intros HDB. repeat split.
  - intros name. rewrite GetCollection_run, HDB. reflexivity.
  - intros name. rewrite NewCollectionWrapper_run, HDB. reflexivity.
  - intros op.
    destruct (run_op_after drv op w) as (calls & s & out & err & -> & _).
    exact HDB.
  - intros uri databaseName.
    pose proof (ConnectDB_sets_DB drv uri databaseName w) as H.
    destruct (ConnectDB drv uri databaseName w) as [[client|msg|code] w'].
    + destruct H as [H1 H2]. split; [exact H1|].
      intros name. rewrite GetCollection_run, H1, H2. reflexivity.
    + exact H.
    + congruence.
Qed.

(** C10. [FindOneAndUpdate], and so [FindByIdAndUpdate], calls the driver's
    find-and-update with no options, for every driver, and what it hands back
    is the decode of the result of that one call.  So with the driver's
    default (a call without options asks for the document before the update)
    and the meaning of that request (a successful call gives the matched
    document as a plain find sees it before the update), a document the
    operation decodes without error is the document [FindOne] with the same
    filter decodes in the world before the call: the document as it was, not
    as the update leaves it. *)
Theorem FindOneAndUpdate_decodes_document_before (c : @CollectionWrapper Client)
  (find update : bsonM) (updated : M) (w : World Server Client Cursor M) :
  let ctx := {| ctx_id := next_ctx w; ctx_timeout := 10 * Second |} in
  let d := drv_Decode drv
    (fst (drv_FindOneAndUpdate drv (wrapper_I c) ctx find update [] (server w)))
    updated in
  trace (snd (FindOneAndUpdate drv c find update updated w))
  = (trace w ++ [EvWithTimeout ctx;
                 EvCall (CFindOneAndUpdate (wrapper_I c) ctx find update []);
                 EvCancel ctx])%list
  /\ (forall idHex,
        trace (snd (FindByIdAndUpdate drv c idHex update updated w))
        = (trace w ++ [EvWithTimeout ctx;
                       EvCall (CFindOneAndUpdate (wrapper_I c) ctx
                                 {[ "_id" := VObjectID (ObjId idHex) ]} update []);
                       EvCancel ctx])%list)
  /\ fst (FindOneAndUpdate drv c find update updated w)
     = Ret (fst d, match snd d with
                   | Some _ => Some (errors_New "Cannot update document")
                   | None => None
                   end)
  /\ (default_return_is_before drv -> before_is_found_document drv ->
      forall m,
        fst (FindOneAndUpdate drv c find update updated w) = Ret (m, None) ->
        fst (FindOne drv c find updated w) = Ret (m, None)).
Proof.
  intros ctx d. unfold FindByIdAndUpdate.
  split; [rewrite FindOneAndUpdate_run; reflexivity|].
  split; [intros idHex; rewrite FindOneAndUpdate_run; reflexivity|].
  split; [rewrite FindOneAndUpdate_run; reflexivity|].
  clear d. intros Hdefault Hbefore m.
  rewrite FindOneAndUpdate_run, FindOne_run. cbn [fst].
  change (fresh_ctx w (10 * Second)) with ctx.
  rewrite Hdefault.
  pose proof (Hbefore (wrapper_I c) ctx ctx find update (server w) updated) as Hb.
  cbv zeta in Hb.
  destruct (drv_Decode drv
              (fst (drv_FindOneAndUpdate drv (wrapper_I c) ctx find update
                      [ask_before] (server w))) updated)
    as [m' [e|]]; cbn [fst snd generic_error] in *; [discriminate|].
  intros H. injection H as <-. rewrite <- (Hb eq_refl). reflexivity.
Qed.

End Discipline.

(** ** The statements at the in-memory driver *)

Lemma FindOneById_is_FindOne_witness :
  valid_hex_id "USER_ID" = false
  /\ FindOneById Mem.driver Example.users "USER_ID" ∅ Example.populated
     = FindOne Mem.driver Example.users {[ "_id" := VObjectID NilObjectID ]} ∅
         Example.populated.
Proof.
  split; [reflexivity|].
  apply (FindOneById_is_FindOne Mem.driver Example.users "USER_ID" ∅
           Example.populated).
  reflexivity.
Defined.

Lemma CreateIndex_requests_one_index_witness :
  DB Example.connected = Some Example.uri
  /\ fst (CreateIndex Mem.driver "users" "role" true false Example.connected)
     = Ret true.
Proof.
  split; [reflexivity|].
  pose proof (CreateIndex_requests_one_index Mem.driver "users" "role" true false
                Example.connected Example.uri eq_refl) as (_ & _ & H).
  vm_compute in H. destruct H as [H _]. vm_compute. exact H.
Defined.

Lemma GetCollection_needs_ConnectDB_witness :
  DB (Mem.start true) = None
  /\ GetCollection "users" (Mem.start true)
     = (Panic nil_dereference, Mem.start true).
Proof.
  split; [reflexivity|].
  apply (GetCollection_needs_ConnectDB Mem.driver (Mem.start true)).
  reflexivity.
Defined.

Lemma FindOneAndUpdate_decodes_document_before_witness :
  default_return_is_before Mem.driver
  /\ before_is_found_document Mem.driver
  /\ fst (FindOneAndUpdate Mem.driver Example.users
            {[ "_id" := VObjectID Example.B ]} Example.to_jack ∅
            Example.populated) = Ret (Example.queen, None)
  /\ fst (FindOne Mem.driver Example.users
            {[ "_id" := VObjectID Example.B ]} ∅ Example.populated)
     = Ret (Example.queen, None).
Proof.
  split; [exact Mem_default_is_before|].
  split; [exact Mem_before_is_found|].
  assert (H : fst (FindOneAndUpdate Mem.driver Example.users
                     {[ "_id" := VObjectID Example.B ]} Example.to_jack ∅
                     Example.populated) = Ret (Example.queen, None))
    by (vm_compute; reflexivity).
  split; [exact H|].
  destruct (FindOneAndUpdate_decodes_document_before Mem.driver Example.users
              {[ "_id" := VObjectID Example.B ]} Example.to_jack ∅
              Example.populated) as (_ & _ & _ & Hpre).
  exact (Hpre Mem_default_is_before Mem_before_is_found Example.queen H).
Defined.

(** The same call, evaluated: the caller gets the queen as she was, and the
    collection holds the updated document. *)
Example FindByIdAndUpdate_returns_old_document :
  let r := FindByIdAndUpdate Mem.driver Example.users
             "62d04ca380bfc30a1436f591" Example.to_jack ∅ Example.populated in
  fst r = Ret (Example.queen, None)
  /\ Mem.docs_of (server (snd r)) (wrapper_I Example.users)
     = [Example.king; Example.jack].
Proof. vm_compute. split; reflexivity. Qed.

(** The scenario of the specification: two users, found by role. *)
Example find_by_role :
  fst (FindOne Mem.driver Example.users {[ "role" := VString "King" ]} ∅
         Example.populated) = Ret (Example.king, None)
  /\ fst (FindMany Mem.driver Example.users (VM {[ "role" := VString "King" ]}) []
            Example.populated) = Ret ([Example.king], None)
  /\ fst (FindMany Mem.driver Example.users (VM ∅) [] Example.populated)
     = Ret ([Example.king; Example.queen], None)
  /\ fst (FindOneById Mem.driver Example.users "USER_ID" ∅ Example.populated)
     = Ret (∅, Some (errors_New "Cannot find document")).
Proof. vm_compute. repeat split; reflexivity. Qed.

(** Without a connection, index creation panics, after it made its context
    and with the context cancelled on the way out. *)
Example CreateIndex_without_connection :
  CreateIndex Mem.driver "users" "role" true false (Mem.start true)
  = (Panic nil_dereference,
     after (Mem.start true) {| ctx_id := 0; ctx_timeout := 5 * Second |} []
       (server (Mem.start true)) [] []).
Proof. reflexivity. Qed.

(** A server that does not answer the ping ends the process, with [DB] nil. *)
Example ConnectDB_server_down :
  let r := ConnectDB Mem.driver Example.uri "test" (Mem.start false) in
  fst r = Exit 1 /\ DB (snd r) = None
  /\ stderr (snd r) = ["Could not ping the database: server selection error"].
Proof. vm_compute. repeat split; reflexivity. Qed.

(** * Further properties *)

(** ** Identifiers and their hexadecimal form *)

Lemma fromHexChar_hextable (c : ascii) (v : Z) :
  fromHexChar c = Some v -> hextable v = ascii_lower c.
Proof.
  destruct c as [[] [] [] [] [] [] [] []]; vm_compute; intros H;
    try discriminate; injection H as <-; reflexivity.
Qed.

Lemma nibble_cases (v : Z) :
  0 <= v < 16 -> v ∈ seqZ 0 16.
Proof. intros H. apply elem_of_seqZ. lia. Qed.

Ltac each_nibble v H :=
  let H' := fresh in
  pose proof (nibble_cases v H) as H'; vm_compute in H';
  repeat (apply elem_of_cons in H' as [->|H']);
  [..|by apply elem_of_nil in H'].

Lemma hextable_fromHexChar (v : Z) :
  0 <= v < 16 -> fromHexChar (hextable v) = Some v.
Proof. intros H. each_nibble v H; reflexivity. Qed.

Lemma byte_of_nibbles (a b : Z) :
  0 <= a < 16 -> 0 <= b < 16 ->
  Z.shiftr (Z.lor (Z.shiftl a 4) b) 4 = a
  /\ Z.land (Z.lor (Z.shiftl a 4) b) 15 = b.
Proof.
  intros Ha Hb. each_nibble a Ha; each_nibble b Hb; split; reflexivity.
Qed.

Lemma nibbles_of_byte (v : Z) :
  0 <= v < 256 ->
  0 <= Z.shiftr v 4 < 16 /\ 0 <= Z.land v 15 < 16
  /\ Z.lor (Z.shiftl (Z.shiftr v 4) 4) (Z.land v 15) = v.
Proof.
  intros H.
  rewrite Z.shiftr_div_pow2 by lia.
  change 15 with (Z.ones 4). rewrite Z.land_ones by lia.
  rewrite Z.shiftl_mul_pow2 by lia.
  assert (H1 : 0 <= v / 2 ^ 4 < 16).
  { change (2 ^ 4) with 16.
    split; [apply Z.div_pos; lia | apply Z.div_lt_upper_bound; lia]. }
  assert (H2 : 0 <= v mod 2 ^ 4 < 16).
  { change (2 ^ 4) with 16. apply Z.mod_pos_bound. lia. }
  split; [exact H1|]. split; [exact H2|].
  rewrite <- Z.add_nocarry_lor.
  - pose proof (Z.div_mod v (2 ^ 4)). lia.
  - apply Z.bits_inj'. intros n Hn. rewrite Z.land_spec, Z.bits_0.
    destruct (Z.lt_ge_cases n 4) as [Hlt|Hge].
    + rewrite Z.mul_pow2_bits_low by lia. reflexivity.
    + rewrite (Z.mod_pow2_bits_high v 4 n) by lia.
      apply andb_false_r.
Qed.

(** Decoding then encoding gives the string back, in lower case. *)
Lemma hex_Encode_Decode (s : string) :
  snd (hex_DecodeString s) = None ->
  hex_EncodeToString (fst (hex_DecodeString s)) = string_lower s.
Proof.
  induction s as [|p|p q rest IH] using string_pair_ind.
  - reflexivity.
  - simpl. destruct (fromHexChar p); discriminate.
  - cbn [hex_DecodeString string_lower].
    destruct (fromHexChar p) as [a|] eqn:Ha; [|discriminate].
    destruct (fromHexChar q) as [b|] eqn:Hb; [|discriminate].
    destruct (hex_DecodeString rest) as [bs err].
    cbn [fst snd hex_EncodeToString] in *.
    intros He.
    destruct (byte_of_nibbles a b) as [-> ->];
      [by eapply fromHexChar_range | by eapply fromHexChar_range |].
    rewrite (fromHexChar_hextable p a Ha), (fromHexChar_hextable q b Hb).
    rewrite (IH He). reflexivity.
Qed.

(** Encoding then decoding gives the bytes back. *)
Lemma hex_Decode_Encode (o : list Z) :
  Forall (fun b => 0 <= b < 256) o ->
  hex_DecodeString (hex_EncodeToString o) = (o, None)
  /\ String.length (hex_EncodeToString o) = (2 * List.length o)%nat.
Proof.
  induction 1 as [|v rest Hv _ [IH IHlen]]; [split; reflexivity|].
  destruct (nibbles_of_byte v Hv) as (Hhi & Hlo & Hjoin).
  cbn [hex_EncodeToString hex_DecodeString String.length List.length].
  rewrite (hextable_fromHexChar _ Hhi), (hextable_fromHexChar _ Hlo), IH.
  rewrite Hjoin, IHlen. split; [reflexivity | lia].
Qed.

Lemma ascii_lower_zero (c : ascii) : ascii_lower c = "0"%char -> c = "0"%char.
Proof.
  destruct c as [[] [] [] [] [] [] [] []]; vm_compute; intros H;
    try discriminate; reflexivity.
Qed.

Lemma string_lower_zeros (n : nat) (s : string) :
  string_lower s = zeros n -> s = zeros n.
Proof.
  revert s. induction n as [|n IH]; intros [|c s]; simpl; try discriminate.
  - reflexivity.
  - intros H. injection H as Hc Hs.
    rewrite (ascii_lower_zero c Hc), (IH s Hs). reflexivity.
Qed.

Lemma ObjectID_Hex_ObjId (s : string) :
  valid_hex_id s = true -> ObjectID_Hex (ObjId s) = string_lower s.
Proof.
  intros H. destruct (ObjId_valid s H) as (Hparse & _).
  unfold ObjId, ObjectIDFromHex in *.
  destruct (negb _); [discriminate|].
  pose proof (hex_Encode_Decode s) as Hrt.
  destruct (hex_DecodeString s) as [bs [e|]]; [discriminate|].
  exact (Hrt eq_refl).
Qed.

(** X1. For a valid identifier string, [ObjId s] is an identifier of 12
    bytes whose hexadecimal form is [s] in lower case: the identifier keeps
    all of the string but the case of its letters. *)
Theorem ObjId_Hex_roundtrip (s : string) :
  valid_hex_id s = true ->
  List.length (ObjId s) = 12%nat
  /\ Forall (fun b => 0 <= b < 256) (ObjId s)
  /\ ObjectID_Hex (ObjId s) = string_lower s.
Proof.
  intros H. destruct (ObjId_valid s H) as (_ & Hlen & Hrange).
  split; [exact Hlen|]. split; [exact Hrange|]. by apply ObjectID_Hex_ObjId.
Qed.

Lemma ObjId_Hex_roundtrip_witness :
  valid_hex_id "62D04CA380bfc30a1436F590" = true
  /\ ObjectID_Hex (ObjId "62D04CA380bfc30a1436F590") = "62d04ca380bfc30a1436f590".
Proof.
  split; [reflexivity|].
  apply (ObjId_Hex_roundtrip "62D04CA380bfc30a1436F590"). reflexivity.
Defined.

Lemma ObjId_of_Hex (o : ObjectID) :
  List.length o = 12%nat -> Forall (fun b => 0 <= b < 256) o ->
  ObjId (ObjectID_Hex o) = o.
Proof.
  intros Hlen Hrange. destruct (hex_Decode_Encode o Hrange) as [Hd Hl].
  unfold ObjId, ObjectIDFromHex, ObjectID_Hex. rewrite Hl, Hlen, Hd. reflexivity.
Qed.

(** X2. An identifier of 12 bytes, written in hexadecimal and parsed again by
    [ObjId], is the same identifier: the string a stored identifier prints as
    finds it again. *)
Theorem ObjId_Hex_inverse (o : ObjectID) :
  List.length o = 12%nat -> Forall (fun b => 0 <= b < 256) o ->
  ObjId (ObjectID_Hex o) = o /\ valid_hex_id (ObjectID_Hex o) = true.
Proof.
  intros Hlen Hrange. split; [by apply ObjId_of_Hex|].
  destruct (valid_hex_id (ObjectID_Hex o)) eqn:Hv; [reflexivity|].
  destruct (ObjectIDFromHex_invalid _ Hv) as [e He].
  destruct (hex_Decode_Encode o Hrange) as [Hd Hl].
  unfold ObjectIDFromHex, ObjectID_Hex in He. rewrite Hl, Hlen, Hd in He.
  discriminate.
Qed.

Lemma ObjId_Hex_inverse_witness :
  List.length Example.A = 12%nat
  /\ Forall (fun b => 0 <= b < 256) Example.A
  /\ ObjId (ObjectID_Hex Example.A) = Example.A
  /\ valid_hex_id (ObjectID_Hex Example.A) = true.
Proof.
  assert (Hr : Forall (fun b => 0 <= b < 256) Example.A).
  { vm_compute. repeat constructor; discriminate. }
  split; [reflexivity|]. split; [exact Hr|].
  apply (ObjId_Hex_inverse Example.A); [reflexivity | exact Hr].
Defined.

(** X3. Two valid identifier strings give the same identifier exactly when
    they are equal up to the case of their letters. *)
Theorem ObjId_equal_iff_same_modulo_case (s t : string) :
  valid_hex_id s = true -> valid_hex_id t = true ->
  (ObjId s = ObjId t <-> string_lower s = string_lower t).
Proof.
  intros Hs Ht.
  pose proof (ObjectID_Hex_ObjId s Hs) as Es.
  pose proof (ObjectID_Hex_ObjId t Ht) as Et.
  destruct (ObjId_valid s Hs) as (_ & Hls & Hrs).
  destruct (ObjId_valid t Ht) as (_ & Hlt & Hrt).
  split.
  - intros H. rewrite <- Es, <- Et, H. reflexivity.
  - intros H. rewrite <- (ObjId_of_Hex (ObjId s) Hls Hrs).
    rewrite <- (ObjId_of_Hex (ObjId t) Hlt Hrt). rewrite Es, Et, H. reflexivity.
Qed.

Lemma ObjId_equal_iff_same_modulo_case_witness :
  valid_hex_id "62D04CA380BFC30A1436F590" = true
  /\ valid_hex_id "62d04ca380bfc30a1436f590" = true
  /\ (ObjId "62D04CA380BFC30A1436F590" = ObjId "62d04ca380bfc30a1436f590"
      <-> string_lower "62D04CA380BFC30A1436F590"
          = string_lower "62d04ca380bfc30a1436f590").
Proof.
  split; [reflexivity|]. split; [reflexivity|].
  apply (ObjId_equal_iff_same_modulo_case "62D04CA380BFC30A1436F590"
           "62d04ca380bfc30a1436f590"); reflexivity.
Defined.

(** X4. [ObjId s] is the zero-value identifier exactly when [s] is not a valid
    identifier string or is the string of 24 zeros: from the result alone a
    failed parse cannot be told from the identifier zero. *)
Theorem ObjId_zero_iff (s : string) :
  ObjId s = NilObjectID <-> (valid_hex_id s = false \/ s = zeros 24).
Proof.
  split.
  - intros H. destruct (valid_hex_id s) eqn:Hv; [right | by left].
    apply string_lower_zeros. rewrite <- (ObjectID_Hex_ObjId s Hv), H.
    reflexivity.
  - intros [Hv | ->]; [|reflexivity].
    destruct (ObjectIDFromHex_invalid s Hv) as [e He].
    unfold ObjId. rewrite He. reflexivity.
Qed.

(** ** Connecting *)

Section Connecting.

Context {Server Client SingleResult Cursor M : Type}.
Variable drv : Driver Server Client SingleResult Cursor M.

Lemma ConnectDB_run uri databaseName (w : World Server Client Cursor M) :
  let ctx := fresh_ctx w (10 * Second) in
  ConnectDB drv uri databaseName w
  = match drv_NewClient drv uri with
    | inr e =>
        (Exit 1,
         write_stderr (String.append "Could not initialize client: " (Error e))
           (set_DatabaseName databaseName w))
    | inl client =>
        let r1 := drv_Connect drv client ctx (server w) in
        match fst r1 with
        | Some e =>
            (Exit 1,
             {| DB := DB w; DatabaseName := databaseName; server := snd r1;
                next_ctx := S (next_ctx w);
                trace := trace w ++ [EvWithTimeout ctx; EvCall (CConnect client ctx)];
                stdout := stdout w;
                stderr := stderr w ++
                  [String.append "Could not connect to client: " (Error e)] |})
        | None =>
            let r2 := drv_Ping drv client ctx (snd r1) in
            match fst r2 with
            | Some e =>
                (Exit 1,
                 {| DB := DB w; DatabaseName := databaseName; server := snd r2;
                    next_ctx := S (next_ctx w);
                    trace := trace w ++ [EvWithTimeout ctx;
                                         EvCall (CConnect client ctx);
                                         EvCall (CPing client ctx)];
                    stdout := stdout w;
                    stderr := stderr w ++
                      [String.append "Could not ping the database: " (Error e)] |})
            | None =>
                (Ret client,
                 {| DB := Some client; DatabaseName := databaseName;
                    server := snd r2; next_ctx := S (next_ctx w);
                    trace := trace w ++ [EvWithTimeout ctx;
                                         EvCall (CConnect client ctx);
                                         EvCall (CPing client ctx);
                                         EvCancel ctx];
                    stdout := stdout w ++ ["Connected to MongoDB"];
                    stderr := stderr w |})
            end
        end
    end.
Proof.
  unfold ConnectDB, context_WithTimeout, cancel_ctx, call, fmt_Println,
    log_Fatal, defer, bind, ret, fresh_ctx, emit, set_server, set_next_ctx,
    set_DB, set_DatabaseName, write_stdout, write_stderr.
  cbn [DB DatabaseName server next_ctx trace stdout stderr fst snd].
  destruct (drv_NewClient drv uri) as [client|e]; [|reflexivity].
  cbn [DB DatabaseName server next_ctx trace stdout stderr fst snd].
  destruct (drv_Connect _ _ _ _) as [[e|] s1];
    cbn [DB DatabaseName server next_ctx trace stdout stderr fst snd];
    [rewrite <- ?app_assoc; reflexivity|].
  destruct (drv_Ping _ _ _ _) as [[e|] s2];
    cbn [DB DatabaseName server next_ctx trace stdout stderr fst snd];
    rewrite <- ?app_assoc; reflexivity.
Qed.

(** X5. [ConnectDB] returns a client exactly when the driver makes that client
    from the URI, then connects it, then answers the ping; and it never
    panics. *)
Theorem ConnectDB_returns_iff (uri databaseName : string)
  (w : World Server Client Cursor M) (client : Client) :
  let ctx := {| ctx_id := next_ctx w; ctx_timeout := 10 * Second |} in
  let connected := drv_Connect drv client ctx (server w) in
  (fst (ConnectDB drv uri databaseName w) = Ret client
   <-> drv_NewClient drv uri = inl client
       /\ fst connected = None
       /\ fst (drv_Ping drv client ctx (snd connected)) = None)
  /\ forall msg, fst (ConnectDB drv uri databaseName w) <> Panic msg.
Proof.
  intros ctx connected. subst connected. rewrite ConnectDB_run.
  change (fresh_ctx w (10 * Second)) with ctx. cbv zeta.
  destruct (drv_NewClient drv uri) as [client'|e].
  - split.
    + split.
      * intros H.
        destruct (fst (drv_Connect drv client' ctx (server w))) eqn:E1;
          [discriminate|].
        destruct (fst (drv_Ping drv client' ctx _)) eqn:E2; [discriminate|].
        cbn in H. injection H as <-. rewrite E1, E2. auto.
      * intros (Hc & E1 & E2). injection Hc as ->. rewrite E1, E2. reflexivity.
    + intros msg.
      destruct (fst (drv_Connect _ _ _ _)); [discriminate|].
      destruct (fst (drv_Ping _ _ _ _)); discriminate.
  - split; [|discriminate].
    split; [discriminate | intros (Hc & _); discriminate].
Qed.

(** X6. When [ConnectDB] returns, [DB] holds the client returned and
    [DatabaseName] the name given; the driver was asked to connect and then to
    ping, both under one new context of 10 seconds, which is cancelled; one
    line was printed and nothing was logged. *)
Theorem ConnectDB_success (uri databaseName : string)
  (w : World Server Client Cursor M) (client : Client) :
  fst (ConnectDB drv uri databaseName w) = Ret client ->
  let ctx := {| ctx_id := next_ctx w; ctx_timeout := 10 * Second |} in
  let w' := snd (ConnectDB drv uri databaseName w) in
  DB w' = Some client
  /\ DatabaseName w' = databaseName
  /\ trace w' = (trace w ++ [EvWithTimeout ctx; EvCall (CConnect client ctx);
                            EvCall (CPing client ctx); EvCancel ctx])%list
  /\ stdout w' = (stdout w ++ ["Connected to MongoDB"])%list
  /\ stderr w' = stderr w.
Proof.
  rewrite ConnectDB_run. cbv zeta.
  destruct (drv_NewClient drv uri) as [client'|e]; [|discriminate].
  destruct (fst (drv_Connect _ _ _ _)); [discriminate|].
  destruct (fst (drv_Ping _ _ _ _)); [discriminate|].
  cbn. intros H. injection H as <-. auto.
Qed.

(** X7. When [ConnectDB] ends the process, the status is 1, [DB] is what it
    was, [DatabaseName] already holds the name given, nothing was printed and
    one line was logged; and a context made by the call is left uncancelled,
    because the deferred cancel does not run when the process ends. *)
Theorem ConnectDB_failure (uri databaseName : string)
  (w : World Server Client Cursor M) (code : Z) :
  fst (ConnectDB drv uri databaseName w) = Exit code ->
  let ctx := {| ctx_id := next_ctx w; ctx_timeout := 10 * Second |} in
  let w' := snd (ConnectDB drv uri databaseName w) in
  code = 1
  /\ DB w' = DB w
  /\ DatabaseName w' = databaseName
  /\ stdout w' = stdout w
  /\ (exists line, stderr w' = (stderr w ++ [line])%list)
  /\ exists t, trace w' = (trace w ++ t)%list
       /\ cancelled t = []
       /\ (created t = [] \/ created t = [ctx]).
Proof.
  rewrite ConnectDB_run. cbv zeta.
  destruct (drv_NewClient drv uri) as [client|e].
  - destruct (fst (drv_Connect _ _ _ _)) as [e|].
    + cbn. intros H. injection H as <-.
      do 4 (split; [reflexivity|]). split; [eauto|].
      eexists. split; [reflexivity|]. cbn. auto.
    + destruct (fst (drv_Ping _ _ _ _)) as [e|]; [|discriminate].
      cbn. intros H. injection H as <-.
      do 4 (split; [reflexivity|]). split; [eauto|].
      eexists. split; [reflexivity|]. cbn. auto.
  - cbn. intros H. injection H as <-.
    do 4 (split; [reflexivity|]). split; [eauto|].
    exists []. rewrite app_nil_r. cbn. auto.
Qed.

(** X8. After [ConnectDB] returned, [NewCollectionWrapper(name)] returns a
    wrapper of that name whose handle is the named collection of the database
    named at the connection, on the client connected; it calls the driver for
    nothing and leaves the world as it is. *)
Theorem connect_then_wrap (uri databaseName name : string)
  (w w1 : World Server Client Cursor M) (client : Client) :
  ConnectDB drv uri databaseName w = (Ret client, w1) ->
  NewCollectionWrapper name w1
  = (Ret {| wrapper_I := Build_Collection client databaseName name;
            wrapper_name := name |}, w1).
Proof.
  intros H. pose proof (ConnectDB_sets_DB drv uri databaseName w) as Hs.
  rewrite H in Hs. destruct Hs as [H1 H2].
  rewrite NewCollectionWrapper_run, H1, H2. reflexivity.
Qed.

End Connecting.

(** ** Operations: where they go, what they log, how they compose *)

Section Operations.

Context {Server Client SingleResult Cursor M : Type}.
Variable drv : Driver Server Client SingleResult Cursor M.

(** X9. An operation of a wrapper makes its first driver call on the handle
    the wrapper was built with, whatever [DB] and [DatabaseName] are when the
    operation runs; the driver calls after the first have no collection (they
    read the cursor). *)
Theorem calls_go_to_wrapper_collection (op : @Op Client M)
  (c : @CollectionWrapper Client) (w : World Server Client Cursor M) :
  op_wrapper op = Some c ->
  let ctx := {| ctx_id := next_ctx w; ctx_timeout := 10 * Second |} in
  exists first rest,
    trace (snd (run_op drv op w))
    = (trace w ++ EvWithTimeout ctx :: EvCall first
         :: map EvCall rest ++ [EvCancel ctx])%list
    /\ call_coll first = Some (wrapper_I c)
    /\ Forall (fun k => call_coll k = None) rest.
Proof.
  intros Hop ctx.
  destruct op; cbn in Hop; try discriminate; injection Hop as ->;
    cbn [run_op forget snd]; unfold FindOneById, FindByIdAndUpdate;
    rewrite ?FindOne_run, ?FindOneAndUpdate_run, ?New_run, ?FindMany_run,
      ?FindManyPopulate_run; cbv zeta; change (fresh_ctx w (10 * Second)) with ctx.
  - do 2 eexists. split; [reflexivity|]. split; [reflexivity | constructor].
  - do 2 eexists. split; [reflexivity|]. split; [reflexivity | constructor].
  - do 2 eexists. split; [reflexivity|]. split; [reflexivity | constructor].
  - do 2 eexists. split; [reflexivity|]. split; [reflexivity | constructor].
  - do 2 eexists. split; [reflexivity|]. split; [reflexivity | constructor].
  - destruct (fst (drv_Find _ _ _ _ _)); do 2 eexists;
      (split; [reflexivity|]; split; [reflexivity | repeat constructor]).
  - destruct (fst (drv_Aggregate _ _ _ _ _)); do 2 eexists;
      (split; [reflexivity|]; split; [reflexivity | repeat constructor]).
Qed.

Lemma created_app (t u : list (Event Client Cursor M)) :
  created (t ++ u) = (created t ++ created u)%list.
Proof.
  induction t as [|[ctx|ctx|k] t IH]; cbn; [reflexivity | | assumption..].
  rewrite IH. reflexivity.
Qed.

Lemma cancelled_app (t u : list (Event Client Cursor M)) :
  cancelled (t ++ u) = (cancelled t ++ cancelled u)%list.
Proof.
  induction t as [|[ctx|ctx|k] t IH]; cbn; [reflexivity | assumption | | assumption].
  rewrite IH. reflexivity.
Qed.

Lemma created_calls (calls : list (Call Client Cursor M)) :
  created (map EvCall calls) = [] /\ cancelled (map EvCall calls) = [].
Proof. induction calls; cbn; auto. Qed.

(** X10. However many operations run one after the other, and however each
    ends, the contexts they make are numbered consecutively from the world's
    counter, one for each operation with the time limit of its kind, and the
    contexts cancelled are exactly the contexts made, in the same order: no
    context is shared, and none is left open. *)
Theorem run_ops_contexts (ops : list (@Op Client M))
  (w : World Server Client Cursor M) :
  exists t,
    trace (run_ops drv ops w) = (trace w ++ t)%list
    /\ map ctx_id (created t) = seq (next_ctx w) (List.length ops)
    /\ map ctx_timeout (created t) = map op_timeout ops
    /\ cancelled t = created t
    /\ next_ctx (run_ops drv ops w) = (next_ctx w + List.length ops)%nat.
Proof.
  revert w. induction ops as [|op ops IH]; intros w.
  - exists []. cbn. rewrite app_nil_r. repeat split; lia.
  - cbn [run_ops].
    destruct (run_op_after drv op w) as (calls & s & out & err & Hw & _ & _).
    destruct (IH (snd (run_op drv op w))) as (t & Ht & Hid & Hto & Hc & Hn).
    rewrite Hw in *. cbn [after trace next_ctx] in *.
    destruct (created_calls calls) as [Hcr Hca].
    eexists. split; [rewrite Ht, <- app_assoc; reflexivity|].
    cbn [app created cancelled List.length seq map].
    rewrite !created_app, !cancelled_app, Hcr, Hca. cbn.
    rewrite Hid, Hto, Hc. repeat split. lia.
Qed.

(** X11. What the operations write when they fail.  [FindOne], [New] and
    [FindMany] write nothing.  [FindOneAndUpdate] prints the text of the decode
    error on the standard output.  [FindManyPopulate] logs the error of
    reading the cursor on the standard error, and logs nothing when the
    aggregation itself fails. *)
Theorem failure_logging (c : @CollectionWrapper Client) (query update : bsonM)
  (model document : M) (bson : Value) (matchQuery : bsonD) (spec : Populate)
  (elem : list M) (w : World Server Client Cursor M) :
  let ctx := {| ctx_id := next_ctx w; ctx_timeout := 10 * Second |} in
  let quiet (w' : World Server Client Cursor M) :=
    stdout w' = stdout w /\ stderr w' = stderr w in
  quiet (snd (FindOne drv c query model w))
  /\ quiet (snd (New drv c document w))
  /\ quiet (snd (FindMany drv c bson elem w))
  /\ (let w' := snd (FindOneAndUpdate drv c query update model w) in
      let d := drv_Decode drv
        (fst (drv_FindOneAndUpdate drv (wrapper_I c) ctx query update [] (server w)))
        model in
      stderr w' = stderr w
      /\ stdout w' = match snd d with
                     | Some e => (stdout w ++ [Error e])%list
                     | None => stdout w
                     end)
  /\ (let w' := snd (FindManyPopulate drv c matchQuery spec elem w) in
      let r := drv_Aggregate drv (wrapper_I c) ctx
                 (populate_pipeline matchQuery spec) (server w) in
      stdout w' = stdout w
      /\ stderr w' = match fst r with
                     | inr _ => stderr w
                     | inl cursor =>
                         match snd (fst (drv_All drv cursor ctx elem (snd r))) with
                         | Some e => (stderr w ++ [Error e])%list
                         | None => stderr w
                         end
                     end).
Proof.
  intros ctx quiet. subst quiet.
  rewrite FindOne_run, New_run, FindMany_run, FindOneAndUpdate_run,
    FindManyPopulate_run.
  cbv zeta. change (fresh_ctx w (10 * Second)) with ctx.
  split; [cbn; rewrite !app_nil_r; auto|].
  split; [cbn; rewrite !app_nil_r; auto|].
  split; [destruct (fst (drv_Find _ _ _ _ _)); cbn; rewrite !app_nil_r; auto|].
  split.
  - cbn. rewrite app_nil_r. split; [reflexivity|].
    destruct (snd (drv_Decode _ _ _)); cbn; [reflexivity | apply app_nil_r].
  - destruct (fst (drv_Aggregate _ _ _ _ _)) as [cursor|e]; cbn;
      rewrite ?app_nil_r; [|auto].
    split; [reflexivity|].
    destruct (snd (fst (drv_All _ _ _ _ _))); cbn; [reflexivity | apply app_nil_r].
Qed.

(** X12. When the driver's [Find] (for [FindManyPopulate]: [Aggregate]) fails,
    the out slice is returned as it was given, the cursor is never read, and
    the context is still cancelled. *)
Theorem failed_query_keeps_out_value (c : @CollectionWrapper Client)
  (bson : Value) (matchQuery : bsonD) (spec : Populate) (elem : list M)
  (w : World Server Client Cursor M) :
  let ctx := {| ctx_id := next_ctx w; ctx_timeout := 10 * Second |} in
  (forall e,
     fst (drv_Find drv (wrapper_I c) ctx bson (server w)) = inr e ->
     fst (FindMany drv c bson elem w) = Ret (elem, Some e)
     /\ trace (snd (FindMany drv c bson elem w))
        = (trace w ++ [EvWithTimeout ctx; EvCall (CFind (wrapper_I c) ctx bson);
                       EvCancel ctx])%list)
  /\ (forall e,
        fst (drv_Aggregate drv (wrapper_I c) ctx
               (populate_pipeline matchQuery spec) (server w)) = inr e ->
        fst (FindManyPopulate drv c matchQuery spec elem w) = Ret (elem, Some e)
        /\ trace (snd (FindManyPopulate drv c matchQuery spec elem w))
           = (trace w ++ [EvWithTimeout ctx;
                          EvCall (CAggregate (wrapper_I c) ctx
                                    (populate_pipeline matchQuery spec));
                          EvCancel ctx])%list).
Proof.
  intros ctx. split; intros e He.
  - rewrite FindMany_run. cbv zeta.
    change (fresh_ctx w (10 * Second)) with ctx. rewrite He. split; reflexivity.
  - rewrite FindManyPopulate_run. cbv zeta.
    change (fresh_ctx w (10 * Second)) with ctx. rewrite He. split; reflexivity.
Qed.

(** X13. Without a connection ([DB] nil), [CreateIndex] panics on the nil
    pointer instead of returning false: it has made its context by then, the
    deferred cancel still runs, the driver is not called and the server is
    untouched. *)
Theorem CreateIndex_without_ConnectDB (collectionName field : string)
  (unique sparse : bool) (w : World Server Client Cursor M) :
  DB w = None ->
  let ctx := {| ctx_id := next_ctx w; ctx_timeout := 5 * Second |} in
  let r := CreateIndex drv collectionName field unique sparse w in
  fst r = Panic nil_dereference
  /\ trace (snd r) = (trace w ++ [EvWithTimeout ctx; EvCancel ctx])%list
  /\ server (snd r) = server w
  /\ stdout (snd r) = stdout w.
Proof.
  intros HDB ctx r. subst r. rewrite CreateIndex_run, HDB. cbn.
  rewrite app_nil_r. auto.
Qed.

(** X14. [FindByIdAndUpdate] with a string that is not a valid identifier
    does not fail before the database is asked: it is the update of the
    document whose [_id] is the zero-value identifier.  So any two such strings
    make the same call. *)
Theorem FindByIdAndUpdate_malformed_id (c : @CollectionWrapper Client)
  (idHex : string) (update : bsonM) (updated : M)
  (w : World Server Client Cursor M) :
  valid_hex_id idHex = false ->
  FindByIdAndUpdate drv c idHex update updated w
  = FindOneAndUpdate drv c {[ "_id" := VObjectID NilObjectID ]} update updated w
  /\ forall other,
       valid_hex_id other = false ->
       FindByIdAndUpdate drv c other update updated w
       = FindByIdAndUpdate drv c idHex update updated w.
Proof.
  intros H. unfold FindByIdAndUpdate, ObjId.
  destruct (ObjectIDFromHex_invalid idHex H) as [e ->].
  split; [reflexivity|].
  intros other Ho. destruct (ObjectIDFromHex_invalid other Ho) as [e' ->].
  reflexivity.
Qed.

(** X16. If every context the trace mentions was made before now, then this
    is still so after [ConnectDB] and after any operations, and the context a
    next operation makes is one the trace does not mention yet. *)
Theorem contexts_are_new (w : World Server Client Cursor M) :
  trace_wf w ->
  (forall uri databaseName, trace_wf (snd (ConnectDB drv uri databaseName w)))
  /\ (forall ops : list (@Op Client M), trace_wf (run_ops drv ops w))
  /\ (forall op : @Op Client M,
        Forall (fun e => event_ctx e
                         <> {| ctx_id := next_ctx w; ctx_timeout := op_timeout op |})
          (trace w)).
Proof.
  intros Hwf. split; [|split].
  - intros uri databaseName. rewrite ConnectDB_run. cbv zeta.
    assert (Hold : Forall (fun e => (ctx_id (event_ctx e) < S (next_ctx w))%nat)
                     (trace w)).
    { eapply Forall_impl; [exact Hwf|]. cbn. intros e He. lia. }
    destruct (drv_NewClient drv uri) as [client|e]; [|exact Hwf].
    destruct (fst (drv_Connect _ _ _ _)).
    { unfold trace_wf. cbn. apply Forall_app. split; [exact Hold|].
      repeat constructor. }
    destruct (fst (drv_Ping _ _ _ _)).
    { unfold trace_wf. cbn. apply Forall_app. split; [exact Hold|].
      repeat constructor. }
    unfold trace_wf. cbn. apply Forall_app. split; [exact Hold|].
    repeat constructor.
  - intros ops. revert w Hwf. induction ops as [|op ops IH]; intros w Hwf.
    + exact Hwf.
    + cbn [run_ops]. apply IH. apply (run_op_trace_wf drv op w Hwf).
  - intros op. apply (run_op_trace_wf drv op w Hwf).
Qed.

End Operations.

(** ** The further statements at the in-memory driver *)

Lemma ConnectDB_success_witness :
  fst (ConnectDB Mem.driver Example.uri "test" (Mem.start true)) = Ret Example.uri
  /\ DB Example.connected = Some Example.uri
  /\ DatabaseName Example.connected = "test".
Proof.
  split; [reflexivity|].
  destruct (ConnectDB_success Mem.driver Example.uri "test" (Mem.start true)
              Example.uri eq_refl) as (H1 & H2 & _).
  split; [exact H1 | exact H2].
Defined.

Lemma ConnectDB_failure_witness :
  fst (ConnectDB Mem.driver Example.uri "test" (Mem.start false)) = Exit 1
  /\ DB (snd (ConnectDB Mem.driver Example.uri "test" (Mem.start false))) = None
  /\ DatabaseName (snd (ConnectDB Mem.driver Example.uri "test" (Mem.start false)))
     = "test".
Proof.
  split; [reflexivity|].
  destruct (ConnectDB_failure Mem.driver Example.uri "test" (Mem.start false) 1
              eq_refl) as (_ & H1 & H2 & _).
  split; [exact H1 | exact H2].
Defined.

Lemma connect_then_wrap_witness :
  ConnectDB Mem.driver Example.uri "test" (Mem.start true)
  = (Ret Example.uri, Example.connected)
  /\ NewCollectionWrapper "users" Example.connected
     = (Ret Example.users, Example.connected).
Proof.
  split; [reflexivity|].
  apply (connect_then_wrap Mem.driver Example.uri "test" "users"
           (Mem.start true) Example.connected Example.uri).
  reflexivity.
Defined.

Lemma calls_go_to_wrapper_collection_witness :
  op_wrapper Example.find_all = Some Example.users
  /\ exists first rest,
       trace (snd (run_op Mem.driver Example.find_all (Mem.start true)))
       = (trace (Mem.start true)
          ++ EvWithTimeout {| ctx_id := 0; ctx_timeout := 10 * Second |}
             :: EvCall first :: map EvCall rest
             ++ [EvCancel {| ctx_id := 0; ctx_timeout := 10 * Second |}])%list
       /\ call_coll first = Some (wrapper_I Example.users)
       /\ Forall (fun k => call_coll k = None) rest.
Proof.
  split; [reflexivity|].
  apply (calls_go_to_wrapper_collection Mem.driver Example.find_all
           Example.users (Mem.start true)).
  reflexivity.
Defined.

Lemma failed_query_keeps_out_value_witness :
  fst (drv_Find Mem.driver (wrapper_I Example.users)
         {| ctx_id := next_ctx Example.populated; ctx_timeout := 10 * Second |}
         VNull (server Example.populated)) = inr Mem.ErrCommand
  /\ fst (FindMany Mem.driver Example.users VNull [Example.king] Example.populated)
     = Ret ([Example.king], Some Mem.ErrCommand).
Proof.
  split; [reflexivity|].
  destruct (failed_query_keeps_out_value Mem.driver Example.users VNull []
              {| LocalField := ""; ForeignModel := ""; As := "" |}
              [Example.king] Example.populated) as [HFind _].
  destruct (HFind Mem.ErrCommand eq_refl) as [H _]. exact H.
Defined.

Lemma CreateIndex_without_ConnectDB_witness :
  DB (Mem.start true) = None
  /\ fst (CreateIndex Mem.driver "users" "role" true false (Mem.start true))
     = Panic nil_dereference.
Proof.
  split; [reflexivity|].
  apply (CreateIndex_without_ConnectDB Mem.driver "users" "role" true false
           (Mem.start true)).
  reflexivity.
Defined.

Lemma FindByIdAndUpdate_malformed_id_witness :
  valid_hex_id "USER_ID" = false
  /\ FindByIdAndUpdate Mem.driver Example.users "USER_ID" Example.to_jack ∅
       Example.populated
     = FindOneAndUpdate Mem.driver Example.users
         {[ "_id" := VObjectID NilObjectID ]} Example.to_jack ∅ Example.populated.
Proof.
  split; [reflexivity|].
  destruct (FindByIdAndUpdate_malformed_id Mem.driver Example.users "USER_ID"
              Example.to_jack ∅ Example.populated eq_refl) as [H _].
  exact H.
Defined.

Lemma contexts_are_new_witness :
  trace_wf (Mem.start true)
  /\ trace_wf (run_ops Mem.driver Example.session (Mem.start true)).
Proof.
  assert (H : trace_wf (Mem.start true)) by constructor.
  split; [exact H|].
  apply (contexts_are_new Mem.driver (Mem.start true) H).
Defined.

(** ** Identifier strings in the by-id operations *)

Lemma ObjId_same_lower (s t : string) :
  valid_hex_id s = true -> valid_hex_id t = true ->
  string_lower s = string_lower t -> ObjId s = ObjId t.
Proof.
  intros Hs Ht H.
  destruct (ObjId_valid s Hs) as (_ & Hls & Hrs).
  destruct (ObjId_valid t Ht) as (_ & Hlt & Hrt).
  rewrite <- (ObjId_of_Hex (ObjId s) Hls Hrs), <- (ObjId_of_Hex (ObjId t) Hlt Hrt).
  rewrite (ObjectID_Hex_ObjId s Hs), (ObjectID_Hex_ObjId t Ht), H. reflexivity.
Qed.

(** X17. The by-id operations do not see the case of the letters of a valid
    identifier string: two valid strings that are equal in lower case make
    the same [FindOneById] and the same [FindByIdAndUpdate]. *)
Theorem by_id_operations_ignore_case
  {Server Client SingleResult Cursor M : Type}
  (drv : Driver Server Client SingleResult Cursor M)
  (c : @CollectionWrapper Client) (s t : string) (update : bsonM) (model : M)
  (w : World Server Client Cursor M) :
  valid_hex_id s = true -> valid_hex_id t = true ->
  string_lower s = string_lower t ->
  FindOneById drv c s model w = FindOneById drv c t model w
  /\ FindByIdAndUpdate drv c s update model w
     = FindByIdAndUpdate drv c t update model w.
Proof.
  intros Hs Ht H. unfold FindOneById, FindByIdAndUpdate.
  rewrite (ObjId_same_lower s t Hs Ht H). split; reflexivity.
Qed.

Lemma by_id_operations_ignore_case_witness :
  valid_hex_id "62D04CA380BFC30A1436F591" = true
  /\ valid_hex_id "62d04ca380bfc30a1436f591" = true
  /\ string_lower "62D04CA380BFC30A1436F591"
     = string_lower "62d04ca380bfc30a1436f591"
  /\ FindOneById Mem.driver Example.users "62D04CA380BFC30A1436F591" ∅
       Example.populated
     = FindOneById Mem.driver Example.users "62d04ca380bfc30a1436f591" ∅
         Example.populated.
Proof.
  split; [reflexivity|]. split; [reflexivity|]. split; [reflexivity|].
  destruct (by_id_operations_ignore_case Mem.driver Example.users
              "62D04CA380BFC30A1436F591" "62d04ca380bfc30a1436f591"
              Example.to_jack ∅ Example.populated eq_refl eq_refl eq_refl)
    as [H _].
  exact H.
Defined.

(** ** Refused updates and the text of errors, evaluated *)

(** An update without an operator is refused by the driver: the operation
    returns its fixed error and prints the driver's, the collection is as it
    was, and a plain find with the same filter still finds the document. *)
Example refused_update_changes_nothing :
  let r := FindOneAndUpdate Mem.driver Example.users
             {[ "role" := VString "King" ]} {[ "role" := VString "Two" ]} ∅
             Example.populated in
  fst r = Ret (∅, Some (errors_New "Cannot update document"))
  /\ stdout (snd r)
     = (stdout Example.populated
        ++ ["update document must contain key beginning with '$'"])%list
  /\ Mem.docs_of (server (snd r)) (wrapper_I Example.users)
     = [Example.king; Example.queen]
  /\ fst (FindOne Mem.driver Example.users {[ "role" := VString "King" ]} ∅
            Example.populated) = Ret (Example.king, None).
Proof. vm_compute. repeat split; reflexivity. Qed.

(** The text of the decoder's error, for a printable byte, for a control
    character and for a byte above 127. *)
Example Error_of_InvalidByteError :
  Error (InvalidByteError "g") = "encoding/hex: invalid byte: U+0067 'g'"
  /\ Error (InvalidByteError "010") = "encoding/hex: invalid byte: U+000A"
  /\ Error (InvalidByteError "233")
     = String.append "encoding/hex: invalid byte: U+00E9 '"
         (String "195" (String "169" "'")).
Proof. vm_compute. repeat split; reflexivity. Qed.
